(** * REINFORCE / RLOO trainer of NeMo-Aligner: a shallow embedding

    Source: [nemo_aligner/algorithms/reinforce_ifeval.py]
    (class [ReinforceIFEvalTrainer]).

    Conventions of the embedding.
    - Python integers are [Z]; floor division is [Z.div], with the
      [ZeroDivisionError] written out.
    - Finite tensor entries are exact rationals [Qc]; a tensor division
      whose divisor may be zero returns an [fval], which makes the
      non-finite results ([nan], [inf]) of the division explicit.
    - A 1-D tensor is a list, a 2-D tensor a list of rows.
    - The trainer object is a record; a method that assigns attributes
      and may raise runs in the state-and-exception monad [M].
    - Dictionaries with string keys are [gmap string _].
    - Calls to the collaborators (policy model, reward critic) are
      recorded in a trace of events. *)

From Stdlib Require Import ZArith QArith Qcanon Lia.
From stdpp Require Import base numbers list strings gmap sorting.

Local Open Scope Z_scope.

(** ** Python runtime fragments *)

Module Py.

Inductive exn : Type :=
| KeyError
| IndexError
| AssertionError
| ZeroDivisionError
| RuntimeError.

Inductive result (A : Type) : Type :=
| Ok (a : A)
| Raise (e : exn).
Arguments Ok {A} a.
Arguments Raise {A} e.

Definition bind {A B} (r : result A) (k : A -> result B) : result B :=
  match r with
  | Ok a => k a
  | Raise e => Raise e
  end.

(** [a // b] on integers. *)
Definition floordiv (a b : Z) : result Z :=
  if decide (b = 0) then Raise ZeroDivisionError else Ok (a / b).

(** [d[k]] on a dictionary. *)
Definition getitem {V} (d : gmap string V) (k : string) : result V :=
  match d !! k with
  | Some v => Ok v
  | None => Raise KeyError
  end.

(** [t[0]] on a 1-D tensor or list. *)
Definition first {A} (l : list A) : result A :=
  match l with
  | x :: _ => Ok x
  | [] => Raise IndexError
  end.

(** A slice bound [k] on a sequence of length [len]: negative bounds
    count from the end, and every bound is clamped to [0..len]. *)
Definition slice_bound (len k : Z) : Z :=
  if k <? 0 then Z.max 0 (k + len) else Z.min k len.

(** [l[a:b]] *)
Definition slice {A} (l : list A) (a b : Z) : list A :=
  let len := Z.of_nat (length l) in
  let lo := slice_bound len a in
  let hi := slice_bound len b in
  take (Z.to_nat (hi - lo)) (drop (Z.to_nat lo) l).

(** [l[:b]] *)
Definition slice_to {A} (l : list A) (b : Z) : list A := slice l 0 b.

End Py.

Import Py.

(** ** Tensor fragments *)

Local Open Scope Qc_scope.

(** The value of a float division. *)
Inductive fval : Type :=
| Fin (q : Qc)
| PInf
| NInf
| NaN.

Global Instance fval_eq_dec : EqDecision fval.
Proof. solve_decision. Defined.

Global Instance Qc_inhabited : Inhabited Qc := populate 0.

(** [x / d] on floats, the divisor being a non-negative count:
    [0 / 0] is [nan] and [x / 0] is an infinity of the sign of [x]. *)
Definition true_divide (x d : Qc) : fval :=
  if decide (d = 0) then
    if decide (x = 0) then NaN
    else if decide (0 < x) then PInf else NInf
  else Fin (x / d).

Definition is_finite (v : fval) : bool :=
  match v with Fin _ => true | _ => false end.

(** [t.sum()] *)
Definition tsum (t : list Qc) : Qc := foldr Qcplus 0 t.

(** [t.sum()] on an integer tensor. *)
Definition zsum (t : list Z) : Z := foldr Z.add 0%Z t.

(** Elementwise operations on tensors of one shape. *)
Definition tmul (a b : list Qc) : list Qc := zip_with Qcmult a b.
Definition tadd (a b : list Qc) : list Qc := zip_with Qcplus a b.
Definition tsub (a b : list Qc) : list Qc := zip_with Qcminus a b.
Definition zsub (a b : list Z) : list Z := zip_with Z.sub a b.
(** [t * c] and [c * t] for a scalar [c], and [1 - t]. *)
Definition tscale (a : list Qc) (c : Qc) : list Qc := (λ x, x * c) <$> a.
Definition scalet (c : Qc) (a : list Qc) : list Qc := (λ x, c * x) <$> a.
Definition one_minus (a : list Qc) : list Qc := (λ x, 1 - x) <$> a.

(** [t.mean(-1)] of one row. *)
Definition mean_last (row : list Qc) : fval :=
  true_divide (tsum row) (Qc_of_Z (Z.of_nat (length row))).

(** [torch.eye(n)] *)
Definition eye (n : nat) : list (list Qc) :=
  (λ i, (λ j, if decide (i = j) then 1 else 0) <$> seq 0 n) <$> seq 0 n.

(** [torch.matmul(m, v)] for a matrix and a vector. *)
Definition matmul (m : list (list Qc)) (v : list Qc) : list Qc :=
  (λ row, tsum (tmul row v)) <$> m.

(** Lexicographic order on token rows, the order of [torch.unique]. *)
Fixpoint lex_leb (a b : list Z) : bool :=
  match a, b with
  | [], _ => true
  | _ :: _, [] => false
  | x :: a', y :: b' =>
      if (x <? y)%Z then true
      else if (y <? x)%Z then false
      else lex_leb a' b'
  end.

Definition lex_le (a b : list Z) : Prop := lex_leb a b = true.

Global Instance lex_le_dec : RelDecision lex_le.
Proof. intros a b. unfold lex_le. apply _. Defined.

(** [torch.unique(t, dim=0)]: the distinct rows, sorted. *)
Definition unique (rows : list (list Z)) : list (list Z) :=
  merge_sort lex_le (remove_dups rows).

(** [(t == u).all(1)]: per row, whether every entry equals that of [u]. *)
Definition rows_eq_all (rows : list (list Z)) (u : list Z) : list bool :=
  (λ r, forallb id (zip_with Z.eqb r u)) <$> rows.

(** [t[mask]] for a boolean mask: the entries at the [true] positions. *)
Definition mask_select {A} (t : list A) (mask : list bool) : list A :=
  fst <$> filter (λ p, snd p = true) (zip t mask).

(** [torch.arange(n)] *)
Definition arange (n : nat) : list nat := seq 0 n.

(** [t[idx]] for an index tensor [idx]. *)
Definition index_select (t : list Qc) (idx : list nat) : list Qc :=
  (λ k, t !!! k) <$> idx.

(** [t[idx] = vals] *)
Definition index_put (t : list fval) (idx : list nat) (vals : list fval)
  : list fval :=
  foldl (λ acc p, <[p.1 := p.2]> acc) t (zip idx vals).

(** [torch.zeros_like(t)] *)
Definition zeros_like (t : list Qc) : list fval := (λ _, Fin 0) <$> t.

(** [torch.tensor(ints, dtype=torch.float32)] on one integer: rounding to
    the nearest float with a 24-bit significand, ties to even.  The
    result is again an integer.  Exact for the counters of a checkpoint,
    which [save] stores as 32-bit integers. *)
Definition float32_of_int (n : Z) : Z :=
  let a := Z.abs n in
  if (a <? 2 ^ 24)%Z then n
  else
    let e := (Z.log2 a - 23)%Z in
    let q := Z.shiftr a e in
    let r := (a - Z.shiftl q e)%Z in
    let half := Z.shiftl 1 (e - 1) in
    let q' := if ((half <? r) || ((r =? half) && Z.odd q))%Z
              then (q + 1)%Z else q in
    (Z.sgn n * Z.shiftl q' e)%Z.

(** ** Configuration and trainer state *)

Record DictConfig : Type := {
  cfg_max_epochs : Z;
  (** [cfg.get("max_steps", -1)]: [None] when the key is absent. *)
  cfg_max_steps : option Z;
  cfg_initial_policy_kl_penalty : Qc;
  cfg_rm_multiplier : Qc;
  cfg_ifeval_multiplier : Qc;
  cfg_baseline : string;
}.

Record Trainer : Type := {
  cfg : DictConfig;
  num_steps_per_epoch : Z;
  max_steps : Z;
  consumed_samples : Z;
  step : Z;
  reinforce_optimization_step : Z;
}.

Definition with_max_steps (v : Z) (t : Trainer) : Trainer :=
  {| cfg := cfg t; num_steps_per_epoch := num_steps_per_epoch t;
     max_steps := v; consumed_samples := consumed_samples t;
     step := step t;
     reinforce_optimization_step := reinforce_optimization_step t |}.

Definition with_step (v : Z) (t : Trainer) : Trainer :=
  {| cfg := cfg t; num_steps_per_epoch := num_steps_per_epoch t;
     max_steps := max_steps t; consumed_samples := consumed_samples t;
     step := v;
     reinforce_optimization_step := reinforce_optimization_step t |}.

Definition with_consumed_samples (v : Z) (t : Trainer) : Trainer :=
  {| cfg := cfg t; num_steps_per_epoch := num_steps_per_epoch t;
     max_steps := max_steps t; consumed_samples := v;
     step := step t;
     reinforce_optimization_step := reinforce_optimization_step t |}.

Definition with_reinforce_optimization_step (v : Z) (t : Trainer) : Trainer :=
  {| cfg := cfg t; num_steps_per_epoch := num_steps_per_epoch t;
     max_steps := max_steps t; consumed_samples := consumed_samples t;
     step := step t;
     reinforce_optimization_step := v |}.

(** Methods of the trainer: the object is threaded through, and stays
    as it was assigned so far when an exception is raised. *)
Definition M (A : Type) : Type := Trainer → result A * Trainer.

Global Instance M_ret : MRet M := λ A a t, (Ok a, t).

Global Instance M_bind : MBind M := λ A B k m t,
  match m t with
  | (Ok a, t') => k a t'
  | (Raise e, t') => (Raise e, t')
  end.

Definition lift {A} (r : result A) : M A := λ t, (r, t).
Definition get_self : M Trainer := λ t, (Ok t, t).
Definition assign (f : Trainer → Trainer) : M unit := λ t, (Ok tt, f t).
Definition py_assert (b : bool) : M unit :=
  if b then mret tt else lift (Raise AssertionError).

(** [set_max_steps] *)
Definition set_max_steps (t : Trainer) : Trainer :=
  let t1 := with_max_steps (num_steps_per_epoch t * cfg_max_epochs (cfg t))%Z t in
  let max_steps' := default (-1)%Z (cfg_max_steps (cfg t)) in
  if (0 <=? max_steps')%Z
  then with_max_steps (Z.min (max_steps t1) max_steps') t1
  else t1.

(** The formula of the specification for [max_steps]: the cap applies
    when an override [>= 0] is configured. *)
Definition max_steps_of (t : Trainer) : Z :=
  let full := (num_steps_per_epoch t * cfg_max_epochs (cfg t))%Z in
  match cfg_max_steps (cfg t) with
  | Some override => if decide (0 ≤ override)%Z then Z.min full override else full
  | None => full
  end.

(** [__init__], as far as the counters and [max_steps] go. *)
Definition init (c : DictConfig) (steps_per_epoch : Z) : Trainer :=
  set_max_steps
    {| cfg := c; num_steps_per_epoch := steps_per_epoch; max_steps := 0;
       consumed_samples := 0; step := 0; reinforce_optimization_step := 0 |}.

(** The property [epoch]. *)
Definition epoch (t : Trainer) : result Z :=
  floordiv (step t) (num_steps_per_epoch t).

(** [state_dict] *)
Definition state_dict (t : Trainer) : result (gmap string Z) :=
  bind (epoch t) (λ e,
    Ok (<["step" := step t]>
        (<["consumed_samples" := consumed_samples t]>
        (<["epoch" := e]>
        (<["ppo_optimization_step" := reinforce_optimization_step t]> ∅))))).

(** The place of a worker in [torch.distributed.broadcast(tensor, 0)]:
    rank 0 keeps its tensor, every other rank receives that of rank 0. *)
Inductive rank : Type :=
| Rank0
| RankOther (from_rank0 : list Z).

Definition broadcast (r : rank) (tensor : list Z) : list Z :=
  match r with
  | Rank0 => tensor
  | RankOther t0 => t0
  end.

(** [load_state_dict] *)
Definition load_state_dict (r : rank) (state_dict : gmap string Z) : M unit :=
  v ← lift (getitem state_dict "step") ;
  assign (with_step v) ;;
  v ← lift (getitem state_dict "consumed_samples") ;
  assign (with_consumed_samples v) ;;
  v ← lift (getitem state_dict "ppo_optimization_step") ;
  assign (with_reinforce_optimization_step v) ;;
  self ← get_self ;
  let loaded_values :=
    [step self; consumed_samples self; reinforce_optimization_step self] in
  let to_broadcast := broadcast r (float32_of_int <$> loaded_values) in
  py_assert (bool_decide (loaded_values = to_broadcast)) ;;
  assign set_max_steps.

(** ** Rollout records *)

(** The dictionary of tensors of one microbatch cycle.  Every field has
    the batch as its leading dimension. *)
Record RolloutBatch : Type := {
  prompt_tokens : list (list Z);
  response_tokens : list (list Z);
  prompt_lengths : list Z;
  response_lengths : list Z;
  rewards : list Qc;
  rm_rewards : list Qc;
  ifeval_rewards : list Qc;
  init_policy_kl : list Qc;
  baseline : list fval;
}.

Definition with_baseline (b : list fval) (batch : RolloutBatch) : RolloutBatch :=
  {| prompt_tokens := prompt_tokens batch;
     response_tokens := response_tokens batch;
     prompt_lengths := prompt_lengths batch;
     response_lengths := response_lengths batch;
     rewards := rewards batch;
     rm_rewards := rm_rewards batch;
     ifeval_rewards := ifeval_rewards batch;
     init_policy_kl := init_policy_kl batch;
     baseline := b |}.

(** ** The RLOO baseline *)

(** [rewards - initial_policy_kl_penalty * init_policy_kl] *)
Definition regularized_reward (penalty : Qc) (batch : RolloutBatch) : list Qc :=
  tsub (rewards batch) (scalet penalty (init_policy_kl batch)).

(** [torch.arange(len(prompt_tokens))[(prompt_tokens == u).all(1)]] *)
Definition prompt_idx (batch : RolloutBatch) (u : list Z) : list nat :=
  mask_select (arange (length (prompt_tokens batch)))
              (rows_eq_all (prompt_tokens batch) u).

(** The body of the loop of [get_rloo_baseline] for the unique prompt [u]. *)
Definition rloo_step (penalty : Qc) (batch : RolloutBatch)
    (acc : list fval) (u : list Z) : list fval :=
  let idx := prompt_idx batch u in
  let rloo_mat := one_minus <$> eye (length idx) in
  let rloo :=
    (λ x, true_divide x (Qc_of_Z (Z.of_nat (length idx) - 1)))
      <$> matmul rloo_mat (index_select (regularized_reward penalty batch) idx) in
  index_put acc idx rloo.

(** [get_rloo_baseline] *)
Definition get_rloo_baseline (penalty : Qc) (batch : RolloutBatch) : RolloutBatch :=
  let unique_prompts := unique (prompt_tokens batch) in
  with_baseline
    (foldl (rloo_step penalty batch) (zeros_like (rewards batch)) unique_prompts)
    batch.

(** ** Reward blending and the KL scalar in [_run_inference] *)

(** Training path:
    [rm_rewards * rm_multiplier + ifeval_mask * ifeval_rewards * ifeval_multiplier] *)
Definition blend_train (c : DictConfig) (rm ifeval ifeval_mask : list Qc) : list Qc :=
  tadd (tscale rm (cfg_rm_multiplier c))
       (tscale (tmul ifeval_mask ifeval) (cfg_ifeval_multiplier c)).

(** Validation path:
    [ifeval_multiplier * ifeval_mask * ifeval_rewards + (1 - ifeval_mask) * rm_rewards] *)
Definition blend_val (c : DictConfig) (rm ifeval ifeval_mask : list Qc) : list Qc :=
  tadd (tmul (scalet (cfg_ifeval_multiplier c) ifeval_mask) ifeval)
       (tmul (one_minus ifeval_mask) rm).

(** [(init_policy_kl * mask).mean(-1)] on the row of one sample; the
    per-token KL and the mask are the outputs of [calculate_kl_penalty]
    and [create_mask]. *)
Definition kl_scalar (kl mask : list Qc) : fval := mean_last (tmul kl mask).

(** The same on the batch, followed by [unsqueeze(-1)]. *)
Definition kl_scalars (kl mask : list (list Qc)) : list fval :=
  zip_with kl_scalar kl mask.

(** The masked mean, in the words of the specification: the sum of the
    per-token values at the valid positions over the number of valid
    positions. *)
Definition masked_mean_spec (kl mask : list Qc) : fval :=
  true_divide (tsum (tmul kl mask)) (tsum mask).

(** ** The calls to the collaborators *)

Inductive event : Type :=
| EvInfer                        (* model.infer *)
| EvCriticIssue (id : nat)       (* rm_critic.infer_rm_critic: request sent *)
| EvCriticJoin (id : nat)        (* future.result() *)
| EvInitLogprobs.                (* model.get_init_policy_logprobs *)

Global Instance event_eq_dec : EqDecision event.
Proof. solve_decision. Defined.

(** What [model.infer] returns. *)
Record Rollout : Type := {
  ro_response_tokens : list (list Z);
  ro_logprobs : list (list Qc);
  ro_prompt_lengths : list Z;
  ro_response_lengths : list Z;
}.

(** The answers of the collaborators. *)
Record Collaborators : Type := {
  (** [model.infer], by the number of earlier calls (sampling differs
      from call to call). *)
  infer_answer : nat → Rollout;
  (** The reward-model score the future of the critic resolves to. *)
  critic_answer : Rollout → list Qc;
  (** The constraint reward and its mask. *)
  ifeval_answer : Rollout → list Qc * list Qc;
  (** [model.get_init_policy_logprobs([rollout])[0]] *)
  init_logprobs_answer : Rollout → list (list Qc);
}.

(** The world outside the trainer: the calls made so far, in order. *)
Record World : Type := {
  trace : list event;
  infer_calls : nat;
  futures_issued : nat;
}.

Definition world0 : World :=
  {| trace := []; infer_calls := 0; futures_issued := 0 |}.

Definition IO (A : Type) : Type := World → A * World.

Global Instance IO_ret : MRet IO := λ A a w, (a, w).
Global Instance IO_bind : MBind IO := λ A B k m w,
  let '(a, w') := m w in k a w'.

Definition emit (e : event) (w : World) : World :=
  {| trace := trace w ++ [e]; infer_calls := infer_calls w;
     futures_issued := futures_issued w |}.

Record Future : Type := {
  future_id : nat;
  future_value : list Qc;
}.

Definition model_infer (env : Collaborators) : IO Rollout := λ w,
  (infer_answer env (infer_calls w),
   {| trace := trace w ++ [EvInfer]; infer_calls := S (infer_calls w);
      futures_issued := futures_issued w |}).

Definition infer_rm_critic (env : Collaborators) (ro : Rollout)
  : IO (Future * list Qc * list Qc) := λ w,
  let id := futures_issued w in
  ({| future_id := id; future_value := critic_answer env ro |},
   (ifeval_answer env ro).1, (ifeval_answer env ro).2,
   {| trace := trace w ++ [EvCriticIssue id]; infer_calls := infer_calls w;
      futures_issued := S id |}).

Definition future_result (f : Future) : IO (list Qc) := λ w,
  (future_value f, emit (EvCriticJoin (future_id f)) w).

Definition get_init_policy_logprobs (env : Collaborators) (ro : Rollout)
  : IO (list (list Qc)) := λ w,
  (init_logprobs_answer env ro, emit EvInitLogprobs w).

(** The scores of one generation round. *)
Record Scores : Type := {
  sc_rewards : list Qc;
  sc_rm_rewards : list Qc;
  sc_ifeval_rewards : list Qc;
  sc_init_logprobs : list (list Qc);
}.

(** Training path, one generation round after [model.infer]: the four
    statements from [infer_rm_critic] to [get_init_policy_logprobs]. *)
Definition score_train (env : Collaborators) (c : DictConfig) (ro : Rollout)
  : IO Scores :=
  '(future, ifeval_rewards, ifeval_mask) ← infer_rm_critic env ro ;
  rm_rewards ← future_result future ;
  let rewards := blend_train c rm_rewards ifeval_rewards ifeval_mask in
  init_policy_logprobs ← get_init_policy_logprobs env ro ;
  mret {| sc_rewards := rewards; sc_rm_rewards := rm_rewards;
          sc_ifeval_rewards := ifeval_rewards;
          sc_init_logprobs := init_policy_logprobs |}.

(** [for _ in range(generation_iter)]: infer, score, and keep the scores
    of the rounds in order. *)
Fixpoint generation_rounds (env : Collaborators) (c : DictConfig)
    (generation_iter : nat) : IO (list Scores) :=
  match generation_iter with
  | O => mret []
  | S n =>
      ro ← model_infer env ;
      s ← score_train env c ro ;
      rest ← generation_rounds env c n ;
      mret (s :: rest)
  end.

(** Training path of [_run_inference]: the generation rounds of each of
    the microbatches drawn from the data loader. *)
Fixpoint run_inference_train (env : Collaborators) (c : DictConfig)
    (generation_iter microbatches : nat) : IO (list (list Scores)) :=
  match microbatches with
  | O => mret []
  | S n =>
      cur ← generation_rounds env c generation_iter ;
      rest ← run_inference_train env c generation_iter n ;
      mret (cur :: rest)
  end.

(** Validation path of [_run_inference], one microbatch. *)
Definition score_val (env : Collaborators) (c : DictConfig) : IO Scores :=
  ro ← model_infer env ;
  '(future, ifeval_rewards, ifeval_mask) ← infer_rm_critic env ro ;
  rm_rewards ← future_result future ;
  let rewards := blend_val c rm_rewards ifeval_rewards ifeval_mask in
  mret {| sc_rewards := rewards; sc_rm_rewards := rm_rewards;
          sc_ifeval_rewards := ifeval_rewards; sc_init_logprobs := [] |}.

(** The futures issued and not yet joined, after a trace. *)
Fixpoint outstanding_after (pending : list nat) (tr : list event) : list nat :=
  match tr with
  | [] => pending
  | EvCriticIssue id :: tr' => outstanding_after (id :: pending) tr'
  | EvCriticJoin id :: tr' =>
      outstanding_after (filter (λ k, k ≠ id) pending) tr'
  | _ :: tr' => outstanding_after pending tr'
  end.

(** For each request of reference log-probabilities in a trace, the
    number of futures outstanding when it is made. *)
Fixpoint outstanding_at_logprobs (pending : list nat) (tr : list event)
  : list nat :=
  match tr with
  | [] => []
  | EvCriticIssue id :: tr' => outstanding_at_logprobs (id :: pending) tr'
  | EvCriticJoin id :: tr' =>
      outstanding_at_logprobs (filter (λ k, k ≠ id) pending) tr'
  | EvInitLogprobs :: tr' =>
      length pending :: outstanding_at_logprobs pending tr'
  | EvInfer :: tr' => outstanding_at_logprobs pending tr'
  end.

(** The largest number of futures outstanding at any point of a trace. *)
Fixpoint max_outstanding (pending : list nat) (tr : list event) : nat :=
  match tr with
  | [] => length pending
  | e :: tr' =>
      let pending' := outstanding_after pending [e] in
      Nat.max (length pending) (max_outstanding pending' tr')
  end.

(** ** Rollout metrics *)

(** The logged example. *)
Record Table : Type := {
  table_reward : Qc;
  table_rm_reward : Qc;
  table_ifeval_reward : Qc;
  table_prompt : string;
  table_response : string;
}.

(** The sums of one worker, in the order of [tensor_to_accumulate]. *)
Record LocalSums : Type := {
  sum_response_lengths : Qc;
  sum_prompt_lengths : Qc;
  sum_rewards : Qc;
  sum_rm_rewards : Qc;
  sum_ifeval_rewards : Qc;
  num_samples : Qc;
}.

Definition sums_to_tensor (s : LocalSums) : list Qc :=
  [sum_response_lengths s; sum_prompt_lengths s; sum_rewards s;
   sum_rm_rewards s; sum_ifeval_rewards s; num_samples s].

(** The [if i == 0] block of [compute_global_rollout_metrics]. *)
Definition table_of (ids_to_text : list Z → string) (rollout_batch : RolloutBatch)
  : result Table :=
  bind (first (rewards rollout_batch)) (λ reward,
  bind (first (rm_rewards rollout_batch)) (λ rm_reward,
  bind (first (ifeval_rewards rollout_batch)) (λ ifeval_reward,
  bind (first (prompt_lengths rollout_batch)) (λ prompt_length,
  bind (first (response_lengths rollout_batch)) (λ response_length,
  bind (first (response_tokens rollout_batch)) (λ response_token,
    Ok {| table_reward := rm_reward;
          table_rm_reward := rm_reward;
          table_ifeval_reward := ifeval_reward;
          table_prompt := ids_to_text (slice_to response_token prompt_length);
          table_response :=
            ids_to_text (slice response_token prompt_length response_length) |})))))).

(** The accumulation statements of the loop body, for one record. *)
Definition accumulate (m : LocalSums) (rollout_batch : RolloutBatch) : LocalSums :=
  {| sum_response_lengths :=
       sum_response_lengths m
       + Qc_of_Z (zsum (zsub (response_lengths rollout_batch)
                             (prompt_lengths rollout_batch)));
     sum_prompt_lengths :=
       sum_prompt_lengths m + Qc_of_Z (zsum (prompt_lengths rollout_batch));
     sum_rewards := sum_rewards m + tsum (rm_rewards rollout_batch);
     sum_rm_rewards := sum_rm_rewards m + tsum (rm_rewards rollout_batch);
     sum_ifeval_rewards :=
       sum_ifeval_rewards m + tsum (ifeval_rewards rollout_batch);
     num_samples :=
       num_samples m + Qc_of_Z (Z.of_nat (length (prompt_lengths rollout_batch))) |}.

Definition sums0 : LocalSums :=
  {| sum_response_lengths := 0; sum_prompt_lengths := 0; sum_rewards := 0;
     sum_rm_rewards := 0; sum_ifeval_rewards := 0; num_samples := 0 |}.

(** The loop of [compute_global_rollout_metrics]: the table of the first
    record and the sums over all records of this worker. *)
Definition local_rollout_metrics (ids_to_text : list Z → string)
    (rollout_batches : list RolloutBatch) : result (option Table * LocalSums) :=
  bind (match rollout_batches with
        | [] => Ok None
        | b :: _ => bind (table_of ids_to_text b) (λ t, Ok (Some t))
        end) (λ table,
    Ok (table, foldl accumulate sums0 rollout_batches)).

(** [torch.distributed.all_reduce] with the default sum: every worker
    ends with the entrywise sum of the tensors of all workers. *)
Definition all_reduce (mine : list Qc) (others : list (list Qc)) : list Qc :=
  foldl tadd mine others.

Definition epsilon : Qc := Q2Qc (1 # 1000000).

Record Metrics : Type := {
  table : option Table;
  global_response_lengths_mean : Qc;
  global_prompt_lengths : Qc;
  global_rewards : Qc;
  global_rm_rewards : Qc;
  global_ifeval_rewards : Qc;
}.

(** [compute_global_rollout_metrics] on one worker; [others] are the
    tensors the other workers of the data-parallel group contribute. *)
Definition compute_global_rollout_metrics (ids_to_text : list Z → string)
    (rollout_batches : list RolloutBatch) (others : list (list Qc))
  : result Metrics :=
  bind (local_rollout_metrics ids_to_text rollout_batches) (λ '(tbl, sums),
    match all_reduce (sums_to_tensor sums) others with
    | [g_response_lengths; g_prompt_lengths; g_rewards; g_rm_rewards;
       g_ifeval_rewards; g_num_samples] =>
        (* a float division by zero raises *)
        if decide (g_num_samples + epsilon = 0) then Raise ZeroDivisionError
        else
        Ok {| table := tbl;
              global_response_lengths_mean :=
                g_response_lengths / (g_num_samples + epsilon);
              global_prompt_lengths := g_prompt_lengths / (g_num_samples + epsilon);
              global_rewards := g_rewards / (g_num_samples + epsilon);
              global_rm_rewards := g_rm_rewards / (g_num_samples + epsilon);
              global_ifeval_rewards :=
                g_ifeval_rewards / (g_num_samples + epsilon) |}
    | _ => Raise RuntimeError
    end).

(** ** Concrete inputs used in the examples *)

Definition example_cfg (override : option Z) : DictConfig :=
  {| cfg_max_epochs := 3; cfg_max_steps := override;
     cfg_initial_policy_kl_penalty := Q2Qc (1 # 100);
     cfg_rm_multiplier := Q2Qc (1 # 2);
     cfg_ifeval_multiplier := Qc_of_Z 2;
     cfg_baseline := "RLOO" |}.

(** A trainer in its second epoch: 17 steps of 128 samples, two
    optimizer steps per step. *)
Definition example_trainer : Trainer :=
  {| cfg := example_cfg None; num_steps_per_epoch := 10; max_steps := 30;
     consumed_samples := 2176; step := 17; reinforce_optimization_step := 34 |}.

Definition example_snapshot : gmap string Z :=
  <["step" := 17%Z]>
  (<["consumed_samples" := 2176%Z]>
  (<["epoch" := 1%Z]>
  (<["ppo_optimization_step" := 34%Z]> ∅))).

(** The events of the generation round that issues future [id], and of
    [n] rounds starting with future [k], in the order of the statements
    of the loop body. *)
Definition round_events (id : nat) : list event :=
  [EvInfer; EvCriticIssue id; EvCriticJoin id; EvInitLogprobs].

Definition rounds_trace (k n : nat) : list event :=
  flat_map round_events (seq k n).

(** Collaborators that answer one sample per call. *)
Definition example_collaborators : Collaborators :=
  {| infer_answer := λ _,
       {| ro_response_tokens := [[0; 1; 2; 3; 4]%Z];
          ro_logprobs := [[Q2Qc (-1 # 2); Q2Qc (-1 # 4); Q2Qc (-1 # 8); Q2Qc (-1 # 2)]];
          ro_prompt_lengths := [2%Z]; ro_response_lengths := [5%Z] |};
     critic_answer := λ _, [Qc_of_Z 2];
     ifeval_answer := λ _, ([Qc_of_Z 1], [Qc_of_Z 1]);
     init_logprobs_answer := λ _,
       [[Q2Qc (-1 # 2); Q2Qc (-1 # 2); Q2Qc (-1 # 4); Q2Qc (-1 # 2)]] |}.

(** The entrywise sum of the sums of two workers. *)
Definition add_sums (a b : LocalSums) : LocalSums :=
  {| sum_response_lengths := sum_response_lengths a + sum_response_lengths b;
     sum_prompt_lengths := sum_prompt_lengths a + sum_prompt_lengths b;
     sum_rewards := sum_rewards a + sum_rewards b;
     sum_rm_rewards := sum_rm_rewards a + sum_rm_rewards b;
     sum_ifeval_rewards := sum_ifeval_rewards a + sum_ifeval_rewards b;
     num_samples := num_samples a + num_samples b |}.

(** The tensor a worker with the records [rollout_batches] contributes
    to the reduction. *)
Definition worker_tensor (rollout_batches : list RolloutBatch) : list Qc :=
  sums_to_tensor (foldl accumulate sums0 rollout_batches).

(** A tokenizer over a five-word vocabulary. *)
Definition example_ids_to_text (ids : list Z) : string :=
  String.concat ""
    ((λ i, default "?" (["Say"; " hi"; " Hi"; " there"; "!"] !! Z.to_nat i)) <$> ids).

(** Two samples of one prompt. *)
Definition example_pair_batch : RolloutBatch :=
  {| prompt_tokens := [[7; 8; 9]; [7; 8; 9]]%Z;
     response_tokens := [];
     prompt_lengths := [];
     response_lengths := [];
     rewards := [Qc_of_Z 5; Qc_of_Z 1];
     rm_rewards := [];
     ifeval_rewards := [];
     init_policy_kl := [Qc_of_Z 1; Qc_of_Z 0];
     baseline := [] |}.

(** A record of one sample whose combined reward 3 differs from its
    reward-model reward 2. *)
Definition example_rollout_batch : RolloutBatch :=
  {| prompt_tokens := [[0; 1]%Z];
     response_tokens := [[0; 1; 2; 3; 4]%Z];
     prompt_lengths := [2%Z];
     response_lengths := [5%Z];
     rewards := [Qc_of_Z 3];
     rm_rewards := [Qc_of_Z 2];
     ifeval_rewards := [Qc_of_Z 1];
     init_policy_kl := [0];
     baseline := [Fin 0] |}.

(** The shape of a batch handed to [get_rloo_baseline]: the prompt
    tokens form a 2-D tensor (all rows of one width), and the rewards and
    the KL scalars have one entry per row. *)
Definition batch_shaped (batch : RolloutBatch) : Prop :=
  (∃ width, Forall (λ r, length r = width) (prompt_tokens batch)) ∧
  length (rewards batch) = length (prompt_tokens batch) ∧
  length (init_policy_kl batch) = length (prompt_tokens batch).

(** The other members of the prompt group of sample [i], whose prompt is
    [p]: the samples [j ≠ i] with the same prompt-token row. *)
Definition others_of (batch : RolloutBatch) (i : nat) (p : list Z) : list nat :=
  filter (λ j, j ≠ i ∧ prompt_tokens batch !! j = Some p)
         (seq 0 (length (prompt_tokens batch))).

(** The size of that group. *)
Definition group_size (batch : RolloutBatch) (i : nat) (p : list Z) : nat :=
  S (length (others_of batch i p)).

(** The leave-one-out mean in the words of the specification: the sum of
    the regularized rewards of the other members over [n - 1]. *)
Definition rloo_spec (penalty : Qc) (batch : RolloutBatch) (i : nat) (p : list Z)
  : Qc :=
  tsum (index_select (regularized_reward penalty batch) (others_of batch i p))
  / Qc_of_Z (Z.of_nat (group_size batch i p) - 1).

(** The members of the group of the prompt [u], in the order of the batch. *)
Definition group (batch : RolloutBatch) (u : list Z) : list nat :=
  filter (λ k, prompt_tokens batch !! k = Some u)
         (seq 0 (length (prompt_tokens batch))).

(** The value the loop of [get_rloo_baseline] stores for sample [k] when
    it handles the prompt [u] of that sample: the row of [1 - eye] leaves
    the sample's own regularized reward out of the sum of its group. *)
Definition rloo_value (penalty : Qc) (batch : RolloutBatch) (u : list Z) (k : nat)
  : fval :=
  true_divide (tsum (index_select (regularized_reward penalty batch) (group batch u))
               - regularized_reward penalty batch !!! k)
              (Qc_of_Z (Z.of_nat (length (group batch u)) - 1)).

(** Six samples of three prompts: a group of three, a group of two and
    a singleton. *)
Definition example_rloo_batch : RolloutBatch :=
  {| prompt_tokens := [[1; 2]; [3; 4]; [1; 2]; [3; 4]; [1; 2]; [5; 6]]%Z;
     response_tokens := [];
     prompt_lengths := [];
     response_lengths := [];
     rewards := Qc_of_Z <$> [1; 2; 3; 4; 5; 6]%Z;
     rm_rewards := [];
     ifeval_rewards := [];
     init_policy_kl := Qc_of_Z <$> [0; 0; 0; 0; 0; 2]%Z;
     baseline := [] |}.

(** ** Further parts of [_run_inference] *)

(** [torch.concatenate([t] * n, dim=0)]: the list [[t] * n] is empty for
    [n <= 0], and concatenating no tensor raises. *)
Definition concatenate_copies {A} (t : list A) (n : Z) : result (list A) :=
  if (n <=? 0)%Z then Raise RuntimeError
  else Ok (concat (replicate (Z.to_nat n) t)).

(** The field [prompt_tokens] of [current_batch] over the generation
    rounds: the duplicated text in the first round, and the duplicated
    text appended in each later round.  [None] stands for
    [current_batch is None]. *)
Fixpoint accumulate_prompt_tokens (current : option (list (list Z)))
    (duplicated : list (list Z)) (rounds : nat) : option (list (list Z)) :=
  match rounds with
  | O => current
  | S n =>
      accumulate_prompt_tokens
        (Some match current with
              | None => duplicated
              | Some c => c ++ duplicated
              end)
        duplicated n
  end.

(** The prompt tokens the training path hands to [get_rloo_baseline] for
    one microbatch with the prompts [text]. *)
Definition training_prompt_tokens (text : list (list Z)) (duplicate_prompts : Z)
    (generation_iter : nat) : result (option (list (list Z))) :=
  bind (concatenate_copies text duplicate_prompts) (λ duplicated,
    Ok (accumulate_prompt_tokens None duplicated generation_iter)).

(** Validation path of [_run_inference]: one inference and one
    reward-critic call per microbatch the [zip] yields. *)
Fixpoint run_inference_val (env : Collaborators) (c : DictConfig)
    (microbatches : nat) : IO (list Scores) :=
  match microbatches with
  | O => mret []
  | S n =>
      s ← score_val env c ;
      rest ← run_inference_val env c n ;
      mret (s :: rest)
  end.

(** The events of the validation microbatch that issues future [id]. *)
Definition val_events (id : nat) : list event :=
  [EvInfer; EvCriticIssue id; EvCriticJoin id].

(** [compute_init_policy_kl], set in [__init__]. *)
Definition compute_init_policy_kl (c : DictConfig) : bool :=
  bool_decide (0 < cfg_initial_policy_kl_penalty c).

(** The KL scalar of one sample when the KL is not computed:
    [init_policy_kl] is the scalar tensor 0, which the product with the
    mask broadcasts over the row. *)
Definition kl_scalar_disabled (mask : list Qc) : fval :=
  mean_last (scalet 0 mask).

(** The field [init_policy_kl] of [current_batch], from the per-token KL
    of [calculate_kl_penalty] (used when the KL is computed) and the
    mask of [create_mask]. *)
Definition init_policy_kl_scalars (c : DictConfig) (kl mask : list (list Qc))
  : list fval :=
  if compute_init_policy_kl c then kl_scalars kl mask
  else kl_scalar_disabled <$> mask.

(** ** The metrics of [generate_reinforce_data] *)

(** The loop adds, per record, the sum of its KL scalars to
    [reinforce_rollout_metrics["init_policy_kl"]], a [defaultdict] entry
    that starts at 0, and counts the samples; the dictionary
    comprehension after the loop divides every entry by the count. *)
Definition reinforce_rollout_metrics (compute_kl : bool)
    (rollout_batches : list RolloutBatch) : result (gmap string Qc) :=
  let num_samples :=
    foldl (λ n b, (n + Z.of_nat (length (prompt_lengths b)))%Z) 0%Z rollout_batches in
  let metrics : gmap string Qc :=
    foldl (λ m b,
             <["init_policy_kl" :=
                 default 0 (m !! "init_policy_kl")
                 + (if compute_kl then tsum (init_policy_kl b) else 0)]> m)
          ∅ rollout_batches in
  if decide (metrics = ∅) then Ok ∅
  else if decide (num_samples = 0%Z) then Raise ZeroDivisionError
  else Ok ((λ v, v / Qc_of_Z num_samples) <$> metrics).

(** ** [run_training], [generate_rollouts], [save] and [fit] *)

(** The exceptions of the loop: those of [Py.exn], the [ValueError] that
    [fit] raises itself, and the [UnboundLocalError] of a local variable
    read before any assignment. *)
Inductive loop_exn : Type :=
| PyExn (e : exn)
| ValueError
| UnboundLocalError.

Inductive outcome (A : Type) : Type :=
| Returns (a : A)
| Raises (e : loop_exn).
Arguments Returns {A} a.
Arguments Raises {A} e.

(** What the model, the optimizer and the timer answer for one batch of
    [run_training]. *)
Record TrainStep : Type := {
  ts_loss : Qc;                       (* loss_mean *)
  ts_metrics : gmap string Qc;        (* metrics of get_loss_and_metrics *)
  ts_grad_norm : option Qc;           (* clip_gradients; None stays None *)
  ts_lr : Qc;                         (* optimizer.param_groups[0]["lr"] *)
  ts_time : Qc;                       (* timer.get("train_step_time") *)
}.

(** What the trainer hands to the logger and to the checkpoint callback. *)
Inductive log_entry : Type :=
| LogTrainOptim (at_step : Z) (metrics : gmap string Qc)
| LogTrainRollouts (at_step : Z) (epoch_metric : Z) (row : Table)
| LogValRollouts (at_step : Z) (row : Table)
| LogTimers (at_step : Z)
| Save (state : gmap string Z) (is_train_end : bool)
| Finalize.

(** The trainer together with what it has logged and saved so far. *)
Record Loop : Type := {
  trainer : Trainer;
  logged : list log_entry;
}.

Definition L (A : Type) : Type := Loop → outcome A * Loop.

Global Instance L_ret : MRet L := λ A a l, (Returns a, l).

Global Instance L_bind : MBind L := λ A B k m l,
  match m l with
  | (Returns a, l') => k a l'
  | (Raises e, l') => (Raises e, l')
  end.

Definition get_trainer : L Trainer := λ l, (Returns (trainer l), l).
Definition update_trainer (f : Trainer → Trainer) : L unit := λ l,
  (Returns (), {| trainer := f (trainer l); logged := logged l |}).
Definition log (e : log_entry) : L unit := λ l,
  (Returns (), {| trainer := trainer l; logged := logged l ++ [e] |}).
Definition raise {A} (e : loop_exn) : L A := λ l, (Raises e, l).
Definition of_result {A} (r : result A) : L A :=
  match r with
  | Ok a => mret a
  | Raise e => raise (PyExn e)
  end.
(** [d[k]] on a dictionary that may lack the key. *)
Definition of_option {A} (o : option A) : L A :=
  match o with
  | Some a => mret a
  | None => raise (PyExn KeyError)
  end.

(** The metrics [run_training] logs for one batch: those of the model,
    with [grad_norm] when there is one, then [lr], [loss] and
    [optim_step], then [train_step_time]. *)
Definition optim_metrics (t : Trainer) (b : TrainStep) : gmap string Qc :=
  let metrics := ts_metrics b in
  let metrics :=
    match ts_grad_norm b with
    | Some g => <["grad_norm" := g]> metrics
    | None => metrics
    end in
  let metrics :=
    <["optim_step" := Qc_of_Z (reinforce_optimization_step t)]>
      (<["loss" := ts_loss b]> (<["lr" := ts_lr b]> metrics)) in
  <["train_step_time" := ts_time b]> metrics.

(** The body of the loop of [run_training]; [last] holds the local
    variables [loss_mean] and [metrics], unassigned before the first
    batch. *)
Definition run_training_batch (acc : Loop * option (Qc * gmap string Qc))
    (b : TrainStep) : Loop * option (Qc * gmap string Qc) :=
  let t := trainer acc.1 in
  let metrics := optim_metrics t b in
  ({| trainer :=
        with_reinforce_optimization_step (reinforce_optimization_step t + 1) t;
      logged := logged acc.1 ++ [LogTrainOptim (step t) metrics] |},
   Some (ts_loss b, metrics)).

(** [run_training] over the batches of [dataloader_iter]. *)
Definition run_training (batches : list TrainStep) : L (Qc * gmap string Qc) :=
  λ l,
  let '(l', last) := foldl run_training_batch (l, None) batches in
  match last with
  | Some r => (Returns r, l')
  | None => (Raises UnboundLocalError, l')
  end.

(** [save]: the state handed to the checkpoint callback is
    [state_dict()]; the metrics of the step are added to it.  The
    conversion of the values to [int32] tensors and the callback itself
    are taken to return. *)
Definition save (is_train_end : bool) : L unit :=
  t ← get_trainer ;
  sd ← of_result (state_dict t) ;
  log (Save sd is_train_end).

(** What the data loader, the collaborators and the run timer answer
    during [fit], by the step at which they are asked.  The calls into
    the collaborators (model, optimizer, scheduler, logger, timers, the
    rollout of [_run_inference] and [generate_reinforce_data], Megatron's
    [divide] and [get_iterator_k_split]) are taken to return with these
    answers; what [fit] and the methods it calls do with the answers,
    and what they raise themselves, is modelled. *)
Record FitEnv : Type := {
  (** [isinstance(batch_sampler, MegatronPretrainingRandomSampler)] *)
  fe_random_sampler : bool;
  (** [not (len(dataloader_iter) < num_rollout_micro_batches)] *)
  fe_has_microbatches : Z → bool;
  (** [reinforce_rollout_data["response_tokens"].size(0)] *)
  fe_rollout_size : Z → Z;
  (** [parallel_state.get_data_parallel_world_size()] *)
  fe_dp_world_size : Z;
  (** the [table] of the rollout metrics; [None] is the empty table *)
  fe_rollout_table : Z → option Table;
  (** the batches of [rollout_dataloader_iter] with their answers *)
  fe_train_steps : Z → list TrainStep;
  (** [run_timer.is_finished()] *)
  fe_run_time_exceeded : Z → bool;
  (** [check_progress(step, max_steps, ..., run_time_exceeded)]:
      [(run_val, save_model, is_train_end)] *)
  fe_check_progress : Z → Z → bool → bool * bool * bool;
  (** the [table] of the validation metrics *)
  fe_val_table : Z → option Table;
}.

(** How an iteration of the inner loop of [fit] ends. *)
Inductive flow : Type :=
| Continue   (* the end of the body *)
| Break      (* [break] *)
| Return.    (* [return] *)

(** [generate_rollouts], as far as the trainer goes: the samples of the
    rollout, on all workers, count as consumed. *)
Definition generate_rollouts (env : FitEnv) : L unit :=
  t ← get_trainer ;
  update_trainer
    (with_consumed_samples
       (consumed_samples t + fe_rollout_size env (step t) * fe_dp_world_size env)%Z).

(** The body of [for _ in global_pbar] in [fit]. *)
Definition fit_iteration (env : FitEnv) : L flow :=
  t ← get_trainer ;
  if negb (fe_has_microbatches env (step t)) then mret Break
  else
    generate_rollouts env ;;
    row ← of_option (fe_rollout_table env (step t)) ;
    t ← get_trainer ;
    e ← of_result (epoch t) ;
    log (LogTrainRollouts (step t) (e + 1) row) ;;
    run_training (fe_train_steps env (step t)) ;;
    update_trainer (λ t, with_step (step t + 1) t) ;;
    t ← get_trainer ;
    let run_time_exceeded := fe_run_time_exceeded env (step t) in
    let '(run_val, save_model, is_train_end) :=
      fe_check_progress env (step t) (max_steps t) run_time_exceeded in
    (if run_val
     then row ← of_option (fe_val_table env (step t)) ;
          log (LogValRollouts (step t) row)
     else mret ()) ;;
    log (LogTimers (step t)) ;;
    (if save_model then save is_train_end else mret ()) ;;
    mret (if run_time_exceeded then Return else Continue).

(** [for _ in global_pbar] over [range(num_steps_in_epoch)]. *)
Fixpoint fit_steps (env : FitEnv) (num_steps_in_epoch : nat) : L flow :=
  match num_steps_in_epoch with
  | O => mret Continue
  | S n =>
      f ← fit_iteration env ;
      match f with
      | Continue => fit_steps env n
      | Break => mret Break
      | Return => mret Return
      end
  end.

(** [for _ in epoch_iter]: [true] when the loop runs to its end, [false]
    when the function returns from inside it. *)
Fixpoint fit_epochs (env : FitEnv) (epochs : nat) : L bool :=
  match epochs with
  | O => mret true
  | S m =>
      t ← get_trainer ;
      r ← of_result
            (if decide (num_steps_per_epoch t = 0%Z) then Raise ZeroDivisionError
             else Ok (step t `mod` num_steps_per_epoch t)%Z) ;
      let num_steps_in_epoch :=
        Z.min (max_steps t - step t) (num_steps_per_epoch t - r) in
      if (num_steps_in_epoch <=? 0)%Z then mret false
      else
        f ← fit_steps env (Z.to_nat num_steps_in_epoch) ;
        match f with
        | Return => mret false
        | _ => fit_epochs env m
        end
  end.

(** [fit] *)
Definition fit (env : FitEnv) : L unit :=
  t ← get_trainer ;
  if negb (fe_random_sampler env) && (1 <? cfg_max_epochs (cfg t))%Z
  then raise ValueError
  else
    e ← of_result (epoch t) ;
    let epoch_iter := (cfg_max_epochs (cfg t) - e)%Z in
    if (epoch_iter <=? 0)%Z then mret ()
    else
      finished ← fit_epochs env (Z.to_nat epoch_iter) ;
      if finished : bool then log Finalize else mret ().

(** What a trainer keeps through the loop: everything but the counters. *)
Definition same_setup (t t' : Trainer) : Prop :=
  cfg t' = cfg t ∧ num_steps_per_epoch t' = num_steps_per_epoch t ∧
  max_steps t' = max_steps t.

(** The collaborators never give [fit] cause to raise: every rollout
    and validation has a first sample to log, and every rollout yields at
    least one training batch. *)
Definition no_fault (env : FitEnv) : Prop :=
  (∀ s, fe_rollout_table env s ≠ None) ∧
  (∀ s, fe_train_steps env s ≠ []) ∧
  (∀ s, fe_val_table env s ≠ None).

(** The data loader always has the microbatches of a step, and the run
    timer never expires. *)
Definition uninterrupted (env : FitEnv) : Prop :=
  (∀ s, fe_has_microbatches env s = true) ∧
  (∀ s, fe_run_time_exceeded env s = false).

(** * Properties *)

(** ** Trainer state: [set_max_steps], [state_dict], [load_state_dict] *)

Section trainer_state.
Implicit Types (t : Trainer) (sd : gmap string Z) (r : rank).

Lemma set_max_steps_value t : max_steps (set_max_steps t) = max_steps_of t.
Proof.
  unfold set_max_steps, max_steps_of.
  destruct (cfg_max_steps (cfg t)) as [o|]; simpl; [|done].
  destruct (Z.leb_spec 0 o); case_decide; simpl; done || lia.
Qed.

Lemma set_max_steps_frame t :
  cfg (set_max_steps t) = cfg t ∧
  num_steps_per_epoch (set_max_steps t) = num_steps_per_epoch t ∧
  step (set_max_steps t) = step t ∧
  consumed_samples (set_max_steps t) = consumed_samples t ∧
  reinforce_optimization_step (set_max_steps t) = reinforce_optimization_step t.
Proof. unfold set_max_steps. by case_match. Qed.

Lemma max_steps_of_set_max_steps t : max_steps_of (set_max_steps t) = max_steps_of t.
Proof.
  unfold max_steps_of.
  destruct (set_max_steps_frame t) as (-> & -> & _). done.
Qed.

Lemma state_dict_lookups t sd :
  state_dict t = Ok sd →
  num_steps_per_epoch t ≠ 0%Z ∧
  sd !! "step" = Some (step t) ∧
  sd !! "consumed_samples" = Some (consumed_samples t) ∧
  sd !! "epoch" = Some (step t / num_steps_per_epoch t)%Z ∧
  sd !! "ppo_optimization_step" = Some (reinforce_optimization_step t).
Proof.
  unfold state_dict, epoch, floordiv. case_decide; simpl; [done|].
  intros [= <-]. by simplify_map_eq.
Qed.

(** What [load_state_dict] does once the three keys are found. *)
Lemma load_state_dict_found r sd t0 s c o :
  sd !! "step" = Some s →
  sd !! "consumed_samples" = Some c →
  sd !! "ppo_optimization_step" = Some o →
  let loaded :=
    with_reinforce_optimization_step o (with_consumed_samples c (with_step s t0)) in
  load_state_dict r sd t0 =
    if bool_decide ([s; c; o] = broadcast r (float32_of_int <$> [s; c; o]))
    then (Ok (), set_max_steps loaded)
    else (Raise AssertionError, loaded).
Proof.
  intros Hs Hc Ho. unfold load_state_dict, mbind, M_bind, lift, getitem.
  rewrite Hs, Hc, Ho. simpl. unfold py_assert.
  by case_bool_decide.
Qed.

(** Within 24 bits the conversion to [float32] is exact. *)
Lemma float32_of_int_exact (n : Z) :
  (Z.abs n < 2 ^ 24)%Z → float32_of_int n = n.
Proof.
  intros H. unfold float32_of_int.
  by destruct (Z.ltb_spec (Z.abs n) (2 ^ 24)); [|lia].
Qed.

(** On rank 0 the call returns when the three counters fit in 24 bits. *)
Lemma load_state_dict_rank0_returns sd t0 s c o :
  sd !! "step" = Some s →
  sd !! "consumed_samples" = Some c →
  sd !! "ppo_optimization_step" = Some o →
  (Z.abs s < 2 ^ 24)%Z → (Z.abs c < 2 ^ 24)%Z → (Z.abs o < 2 ^ 24)%Z →
  (load_state_dict Rank0 sd t0).1 = Ok ().
Proof.
  intros Hs Hc Ho Hs' Hc' Ho'.
  rewrite (load_state_dict_found Rank0 sd t0 _ _ _ Hs Hc Ho).
  cbn [broadcast fmap list_fmap].
  rewrite !float32_of_int_exact by done.
  by rewrite bool_decide_eq_true_2.
Qed.

(** Beyond 24 bits the comparison with the [float32] tensor can fail on
    rank 0 itself. *)
Lemma load_state_dict_rank0_inexact :
  float32_of_int 16777217 = 16777216%Z ∧
  (load_state_dict Rank0
     (<["step" := 1%Z]> (<["consumed_samples" := 16777217%Z]>
        (<["ppo_optimization_step" := 2%Z]> ∅)))
     example_trainer).1 = Raise AssertionError.
Proof. split; vm_compute; reflexivity. Qed.

(** A worker whose checkpoint differs from that of rank 0 is detected:
    the worker or rank 0 fails its assertion. *)
Lemma load_state_dict_mismatch_detected sd0 sd t0 t1 s0 c0 o0 s c o :
  sd0 !! "step" = Some s0 →
  sd0 !! "consumed_samples" = Some c0 →
  sd0 !! "ppo_optimization_step" = Some o0 →
  sd !! "step" = Some s →
  sd !! "consumed_samples" = Some c →
  sd !! "ppo_optimization_step" = Some o →
  [s; c; o] ≠ [s0; c0; o0] →
  (load_state_dict Rank0 sd0 t0).1 = Raise AssertionError ∨
  (load_state_dict (RankOther (float32_of_int <$> [s0; c0; o0])) sd t1).1
  = Raise AssertionError.
Proof.
  intros Hs0 Hc0 Ho0 Hs Hc Ho Hne.
  rewrite (load_state_dict_found Rank0 sd0 t0 _ _ _ Hs0 Hc0 Ho0).
  rewrite (load_state_dict_found _ sd t1 _ _ _ Hs Hc Ho).
  cbn [broadcast].
  destruct (bool_decide ([s0; c0; o0] = float32_of_int <$> [s0; c0; o0])) eqn:E0;
    [|by left].
  destruct (bool_decide ([s; c; o] = float32_of_int <$> [s0; c0; o0])) eqn:E1;
    [|by right].
  apply bool_decide_eq_true in E0, E1. congruence.
Qed.

End trainer_state.

(** C9: [set_max_steps] leaves [max_steps] at
    [min(num_steps_per_epoch * max_epochs, override)] when an override
    [>= 0] is configured and at [num_steps_per_epoch * max_epochs]
    otherwise (override absent or negative, such as [-1]); a
    [load_state_dict] that returns has recomputed it by the same formula;
    with 3 epochs of 10 steps it is 30 with no override, 25 with override
    25 and 30 with override [-1]. *)
Theorem C9_max_steps :
  (∀ t : Trainer,
     max_steps (set_max_steps t) =
       let full := (num_steps_per_epoch t * cfg_max_epochs (cfg t))%Z in
       match cfg_max_steps (cfg t) with
       | Some override =>
           if decide (0 ≤ override)%Z then Z.min full override else full
       | None => full
       end) ∧
  (∀ (r : rank) (sd : gmap string Z) (t t' : Trainer),
     load_state_dict r sd t = (Ok (), t') →
     max_steps t' = max_steps (set_max_steps t) ∧
     cfg t' = cfg t ∧ num_steps_per_epoch t' = num_steps_per_epoch t) ∧
  (∀ (kl rm ifeval : Qc) (b : string),
     let c o := {| cfg_max_epochs := 3; cfg_max_steps := o;
                   cfg_initial_policy_kl_penalty := kl; cfg_rm_multiplier := rm;
                   cfg_ifeval_multiplier := ifeval; cfg_baseline := b |} in
     max_steps (init (c None) 10) = 30%Z ∧
     max_steps (init (c (Some 25%Z)) 10) = 25%Z ∧
     max_steps (init (c (Some (-1)%Z)) 10) = 30%Z).
Proof.
  split; [exact set_max_steps_value|]. split; [|done].
  intros r sd t t' H.
  unfold load_state_dict, mbind, M_bind, lift, getitem in H.
  destruct (sd !! "step") as [s|]; simpl in H; [|done].
  destruct (sd !! "consumed_samples") as [c|]; simpl in H; [|done].
  destruct (sd !! "ppo_optimization_step") as [o|]; simpl in H; [|done].
  unfold py_assert in H. case_bool_decide; simpl in H; [|done].
  injection H as <-.
  rewrite !set_max_steps_value.
  destruct (set_max_steps_frame
    (with_reinforce_optimization_step o (with_consumed_samples c (with_step s t))))
    as (-> & -> & _).
  done.
Qed.


(** C7 (as the code has it): the snapshot of [state_dict] has four
    entries, the counters [step], [consumed_samples] and
    [ppo_optimization_step] and, with them, [epoch], stored as
    [step // num_steps_per_epoch]; [load_state_dict] does not read the
    stored [epoch], and the trainer's [epoch] is always computed from
    [step]. *)
Theorem C7_snapshot_layout (t : Trainer) (sd : gmap string Z) :
  state_dict t = Ok sd →
  dom sd = ({["step"; "consumed_samples"; "epoch"; "ppo_optimization_step"]}
            : gset string) ∧
  sd !! "step" = Some (step t) ∧
  sd !! "consumed_samples" = Some (consumed_samples t) ∧
  sd !! "ppo_optimization_step" = Some (reinforce_optimization_step t) ∧
  sd !! "epoch" = Some (step t / num_steps_per_epoch t)%Z ∧
  epoch t = Ok (step t / num_steps_per_epoch t)%Z ∧
  (∀ (r : rank) (t0 : Trainer) (e : Z),
     load_state_dict r (<["epoch" := e]> sd) t0 = load_state_dict r sd t0) ∧
  (∀ (r : rank) (t0 : Trainer),
     epoch (load_state_dict r sd t0).2
     = floordiv (step t) (num_steps_per_epoch t0)).
Proof.
  intros Hsd.
  destruct (state_dict_lookups _ _ Hsd) as (Hn & Hs & Hc & He & Ho).
  split.
  { revert Hsd. unfold state_dict, epoch, floordiv.
    case_decide; simpl; [done|]. intros [= <-].
    rewrite !dom_insert_L, dom_empty_L. set_solver. }
  do 4 (split; [done|]).
  split. { unfold epoch, floordiv. by case_decide. }
  split.
  - intros r t0 e.
    rewrite (load_state_dict_found r sd t0 _ _ _ Hs Hc Ho).
    by rewrite (load_state_dict_found r (<["epoch" := e]> sd) t0
      (step t) (consumed_samples t) (reinforce_optimization_step t))
      by (by rewrite lookup_insert_ne).
  - intros r t0.
    rewrite (load_state_dict_found r sd t0 _ _ _ Hs Hc Ho).
    unfold epoch. case_bool_decide; simpl; [|done].
    by destruct (set_max_steps_frame
      (with_reinforce_optimization_step (reinforce_optimization_step t)
        (with_consumed_samples (consumed_samples t) (with_step (step t) t0))))
      as (_ & -> & -> & _).
Qed.

Lemma C9_max_steps_witness :
  load_state_dict Rank0 example_snapshot (init (example_cfg (Some 25%Z)) 10)
  = (Ok (), set_max_steps
              (with_reinforce_optimization_step 34
                 (with_consumed_samples 2176
                    (with_step 17 (init (example_cfg (Some 25%Z)) 10))))) ∧
  max_steps (load_state_dict Rank0 example_snapshot
               (init (example_cfg (Some 25%Z)) 10)).2 = 25%Z.
Proof.
  assert (H : load_state_dict Rank0 example_snapshot (init (example_cfg (Some 25%Z)) 10)
    = (Ok (), set_max_steps
              (with_reinforce_optimization_step 34
                 (with_consumed_samples 2176
                    (with_step 17 (init (example_cfg (Some 25%Z)) 10))))))
    by (vm_compute; reflexivity).
  split; [exact H|].
  destruct (proj1 (proj2 C9_max_steps) Rank0 example_snapshot _ _ H) as [Hm _].
  rewrite H. cbn [snd]. rewrite Hm.
  vm_compute; reflexivity.
Defined.


Lemma C7_snapshot_layout_witness :
  state_dict example_trainer = Ok example_snapshot ∧
  example_snapshot !! "epoch" = Some (17 / 10)%Z.
Proof.
  assert (H : state_dict example_trainer = Ok example_snapshot)
    by (vm_compute; reflexivity).
  split; [exact H|].
  exact (proj1 (proj2 (proj2 (proj2 (proj2 (C7_snapshot_layout _ _ H)))))).
Defined.

(** The snapshot of a trainer does store [epoch]: it has four entries,
    not only the three counters. *)
Lemma C7_snapshot_stores_epoch :
  state_dict example_trainer = Ok example_snapshot ∧
  example_snapshot !! "epoch" = Some 1%Z ∧
  size example_snapshot = 4%nat ∧
  dom example_snapshot
  ≠ ({["step"; "consumed_samples"; "ppo_optimization_step"]} : gset string).
Proof.
  split; [vm_compute; reflexivity|].
  split; [vm_compute; reflexivity|].
  split; [vm_compute; reflexivity|].
  intros H.
  assert (Hin : "epoch" ∈ dom example_snapshot).
  { apply elem_of_dom. exists 1%Z. vm_compute; reflexivity. }
  rewrite H in Hin. set_solver.
Qed.

(** ** Reward blending *)

Section blending.
Implicit Types (c : DictConfig) (rm ifeval ifeval_mask : list Qc).

Lemma blend_train_lookup c rm ifeval ifeval_mask (i : nat) (r cr m : Qc) :
  rm !! i = Some r → ifeval !! i = Some cr → ifeval_mask !! i = Some m →
  blend_train c rm ifeval ifeval_mask !! i
  = Some (r * cfg_rm_multiplier c + m * cr * cfg_ifeval_multiplier c).
Proof.
  intros Hr Hc Hm. unfold blend_train, tadd, tscale, tmul.
  rewrite lookup_zip_with, !list_lookup_fmap, lookup_zip_with.
  by rewrite Hr, Hc, Hm.
Qed.

Lemma blend_val_lookup c rm ifeval ifeval_mask (i : nat) (r cr m : Qc) :
  rm !! i = Some r → ifeval !! i = Some cr → ifeval_mask !! i = Some m →
  blend_val c rm ifeval ifeval_mask !! i
  = Some (cfg_ifeval_multiplier c * m * cr + (1 - m) * r).
Proof.
  intros Hr Hc Hm. unfold blend_val, tadd, scalet, tmul, one_minus.
  rewrite !lookup_zip_with, !list_lookup_fmap.
  by rewrite Hr, Hc, Hm.
Qed.

Lemma score_train_rewards env c ro w :
  sc_rewards (score_train env c ro w).1
  = blend_train c (critic_answer env ro) (ifeval_answer env ro).1
                  (ifeval_answer env ro).2.
Proof. reflexivity. Qed.

Lemma score_val_rewards env c w :
  let ro := infer_answer env (infer_calls w) in
  sc_rewards (score_val env c w).1
  = blend_val c (critic_answer env ro) (ifeval_answer env ro).1
                (ifeval_answer env ro).2.
Proof. reflexivity. Qed.

End blending.

(** C2: sample by sample, the reward of the training path is
    [rm_reward * rm_multiplier + mask * constraint_reward * constraint_multiplier]
    and that of the validation path is
    [constraint_multiplier * mask * constraint_reward + (1 - mask) * rm_reward];
    for [rm_reward = 2], [constraint_reward = 1], [mask = 1],
    [rm_multiplier = 1/2], [constraint_multiplier = 2] the first is 3 and
    the second is 2. *)
Theorem C2_reward_blending :
  (∀ (env : Collaborators) (c : DictConfig) (ro : Rollout) (w : World)
     (i : nat) (r cr m : Qc),
     critic_answer env ro !! i = Some r →
     (ifeval_answer env ro).1 !! i = Some cr →
     (ifeval_answer env ro).2 !! i = Some m →
     sc_rewards (score_train env c ro w).1 !! i
     = Some (r * cfg_rm_multiplier c + m * cr * cfg_ifeval_multiplier c)) ∧
  (∀ (env : Collaborators) (c : DictConfig) (w : World) (i : nat) (r cr m : Qc),
     let ro := infer_answer env (infer_calls w) in
     critic_answer env ro !! i = Some r →
     (ifeval_answer env ro).1 !! i = Some cr →
     (ifeval_answer env ro).2 !! i = Some m →
     sc_rewards (score_val env c w).1 !! i
     = Some (cfg_ifeval_multiplier c * m * cr + (1 - m) * r)) ∧
  (∀ c : DictConfig,
     cfg_rm_multiplier c = Q2Qc (1 # 2) → cfg_ifeval_multiplier c = Qc_of_Z 2 →
     blend_train c [Qc_of_Z 2] [Qc_of_Z 1] [Qc_of_Z 1] = [Qc_of_Z 3] ∧
     blend_val c [Qc_of_Z 2] [Qc_of_Z 1] [Qc_of_Z 1] = [Qc_of_Z 2] ∧
     blend_train c [Qc_of_Z 2] [Qc_of_Z 1] [Qc_of_Z 1]
     ≠ blend_val c [Qc_of_Z 2] [Qc_of_Z 1] [Qc_of_Z 1]).
Proof.
  split; [|split].
  - intros env c ro w i r cr m. rewrite score_train_rewards.
    apply blend_train_lookup.
  - intros env c w i r cr m ro. unfold ro. rewrite score_val_rewards.
    apply blend_val_lookup.
  - intros c Hrm Hif.
    assert (Ht : blend_train c [Qc_of_Z 2] [Qc_of_Z 1] [Qc_of_Z 1] = [Qc_of_Z 3]).
    { unfold blend_train. simpl. rewrite Hrm, Hif.
      f_equal. by apply Qc_is_canon. }
    assert (Hv : blend_val c [Qc_of_Z 2] [Qc_of_Z 1] [Qc_of_Z 1] = [Qc_of_Z 2]).
    { unfold blend_val. simpl. rewrite Hif.
      f_equal. by apply Qc_is_canon. }
    rewrite Ht, Hv. split; [done|]. split; [done|].
    by intros [= H%Z2Qc_inj].
Qed.

Lemma C2_reward_blending_witness :
  sc_rewards (score_train example_collaborators (example_cfg None)
                (infer_answer example_collaborators 0) world0).1 !! 0%nat
  = Some (Qc_of_Z 2 * cfg_rm_multiplier (example_cfg None)
          + Qc_of_Z 1 * Qc_of_Z 1 * cfg_ifeval_multiplier (example_cfg None)) ∧
  sc_rewards (score_val example_collaborators (example_cfg None) world0).1 !! 0%nat
  = Some (cfg_ifeval_multiplier (example_cfg None) * Qc_of_Z 1 * Qc_of_Z 1
          + (1 - Qc_of_Z 1) * Qc_of_Z 2) ∧
  blend_train (example_cfg None) [Qc_of_Z 2] [Qc_of_Z 1] [Qc_of_Z 1] = [Qc_of_Z 3].
Proof.
  split; [|split].
  - apply (proj1 C2_reward_blending); reflexivity.
  - apply (proj1 (proj2 C2_reward_blending)); reflexivity.
  - apply (proj2 (proj2 C2_reward_blending)); reflexivity.
Defined.

(** ** The order of the calls to the collaborators *)

Section call_order.
Variables (env : Collaborators) (c : DictConfig).

Lemma score_train_world ro w :
  (score_train env c ro w).2
  = {| trace := trace w ++ [EvCriticIssue (futures_issued w);
                            EvCriticJoin (futures_issued w); EvInitLogprobs];
       infer_calls := infer_calls w;
       futures_issued := S (futures_issued w) |}.
Proof.
  unfold score_train, mbind, IO_bind, infer_rm_critic, future_result,
    get_init_policy_logprobs, emit. simpl.
  by rewrite <- !app_assoc.
Qed.

Lemma generation_rounds_world n w :
  (generation_rounds env c n w).2
  = {| trace := trace w ++ rounds_trace (futures_issued w) n;
       infer_calls := infer_calls w + n;
       futures_issued := futures_issued w + n |}.
Proof.
  revert w. induction n as [|n IH]; intros w.
  - unfold rounds_trace. simpl. rewrite app_nil_r, !Nat.add_0_r. by destruct w.
  - simpl. unfold mbind, IO_bind at 1.
    destruct (model_infer env w) as [ro w1] eqn:E1.
    unfold IO_bind at 1.
    destruct (score_train env c ro w1) as [s w2] eqn:E2.
    unfold IO_bind at 1.
    destruct (generation_rounds env c n w2) as [rest w3] eqn:E3.
    simpl.
    assert (w3 = (generation_rounds env c n w2).2) as -> by by rewrite E3.
    assert (w2 = (score_train env c ro w1).2) as -> by by rewrite E2.
    rewrite IH, score_train_world.
    unfold model_infer in E1. injection E1 as _ <-. simpl.
    unfold rounds_trace. simpl.
    rewrite <- !app_assoc. simpl.
    f_equal; lia.
Qed.

Lemma run_inference_train_world gi mb w :
  (run_inference_train env c gi mb w).2
  = {| trace := trace w ++ rounds_trace (futures_issued w) (mb * gi);
       infer_calls := infer_calls w + mb * gi;
       futures_issued := futures_issued w + mb * gi |}.
Proof.
  revert w. induction mb as [|mb IH]; intros w.
  - unfold rounds_trace. simpl. rewrite app_nil_r, !Nat.add_0_r. by destruct w.
  - simpl. unfold mbind, IO_bind at 1.
    destruct (generation_rounds env c gi w) as [cur w1] eqn:E1.
    unfold IO_bind at 1.
    destruct (run_inference_train env c gi mb w1) as [rest w2] eqn:E2.
    simpl.
    assert (w2 = (run_inference_train env c gi mb w1).2) as -> by by rewrite E2.
    assert (w1 = (generation_rounds env c gi w).2) as -> by by rewrite E1.
    rewrite IH, generation_rounds_world. simpl.
    unfold rounds_trace.
    rewrite seq_app, flat_map_app, <- app_assoc.
    f_equal; lia.
Qed.

End call_order.

Lemma filter_ne_singleton (id : nat) : filter (λ k, k ≠ id) [id] = [].
Proof. by rewrite filter_cons_False by (intros H; by apply H). Qed.

Lemma outstanding_at_logprobs_rounds k n :
  outstanding_at_logprobs [] (rounds_trace k n) = replicate n 0%nat.
Proof.
  revert k. induction n as [|n IH]; intros k; [done|].
  unfold rounds_trace. simpl. rewrite filter_ne_singleton. simpl.
  f_equal. apply IH.
Qed.

Lemma outstanding_after_rounds k n :
  outstanding_after [] (rounds_trace k n) = [].
Proof.
  revert k. induction n as [|n IH]; intros k; [done|].
  unfold rounds_trace. simpl. rewrite filter_ne_singleton. apply IH.
Qed.

Lemma max_outstanding_rounds k n :
  (max_outstanding [] (rounds_trace k n) ≤ 1)%nat.
Proof.
  revert k. induction n as [|n IH]; intros k; [simpl; lia|].
  unfold rounds_trace. simpl. rewrite filter_ne_singleton. simpl.
  specialize (IH (S k)). unfold rounds_trace in IH. lia.
Qed.

(** C5 (as the code has it): in every generation round of the training
    path the request to the reward critic is issued first and joined by
    the next statement; the reference log-probabilities are requested
    after that join, with no request outstanding; at no point is more
    than one request outstanding. *)
Theorem C5_critic_joined_before_logprobs
    (env : Collaborators) (c : DictConfig) (generation_iter microbatches : nat) :
  let tr := trace (run_inference_train env c generation_iter microbatches world0).2 in
  tr = rounds_trace 0 (microbatches * generation_iter) ∧
  Forall (λ n, n = 0%nat) (outstanding_at_logprobs [] tr) ∧
  (max_outstanding [] tr ≤ 1)%nat ∧
  outstanding_after [] tr = [].
Proof.
  cbv zeta. rewrite run_inference_train_world. simpl.
  split; [done|]. split; [|split].
  - rewrite outstanding_at_logprobs_rounds. by apply Forall_replicate.
  - apply max_outstanding_rounds.
  - apply outstanding_after_rounds.
Qed.

(** One round of one microbatch: the join precedes the request of the
    reference log-probabilities, which is made with no critic request
    outstanding instead of one. *)
Lemma C5_no_request_outstanding_at_logprobs :
  trace (run_inference_train example_collaborators (example_cfg None) 1 1 world0).2
  = [EvInfer; EvCriticIssue 0; EvCriticJoin 0; EvInitLogprobs] ∧
  outstanding_at_logprobs []
    (trace (run_inference_train example_collaborators (example_cfg None) 1 1 world0).2)
  = [0%nat] ∧
  outstanding_at_logprobs []
    (trace (run_inference_train example_collaborators (example_cfg None) 1 1 world0).2)
  ≠ [1%nat].
Proof. split; [|split]; [reflexivity|reflexivity|discriminate]. Qed.

(** ** The per-sample KL scalar *)

Section kl.

Lemma Qc_of_nat_ne_0 (n : nat) : n ≠ 0%nat → Qc_of_Z (Z.of_nat n) ≠ 0.
Proof.
  intros Hn H. rewrite <- Z2Qc_inj_0 in H. apply Z2Qc_inj in H. lia.
Qed.

Lemma tsum_tmul_mask (kl mask : list Qc) :
  Forall (λ m, m = 0 ∨ m = 1) mask →
  tsum (tmul kl mask) = tsum ((filter (λ p, p.2 = 1) (zip kl mask)).*1).
Proof.
  intros Hmask. revert kl.
  induction Hmask as [|m mask Hm _ IH]; intros [|x kl]; try done.
  simpl. rewrite IH. destruct Hm as [-> | ->].
  - rewrite filter_cons_False by (simpl; discriminate).
    by rewrite Qcmult_0_r, Qcplus_0_l.
  - rewrite filter_cons_True by done. simpl.
    by rewrite Qcmult_1_r.
Qed.

Lemma kl_scalar_value (kl mask : list Qc) :
  length kl = length mask → kl ≠ [] →
  kl_scalar kl mask
  = Fin (tsum (tmul kl mask) / Qc_of_Z (Z.of_nat (length kl))).
Proof.
  intros Hlen Hne. unfold kl_scalar, mean_last, true_divide, tmul.
  rewrite length_zip_with_l_eq by done.
  rewrite decide_False; [done|].
  apply Qc_of_nat_ne_0. by destruct kl.
Qed.

End kl.

(** C4 (as the code has it): with a 0/1 mask, the per-sample KL scalar
    is the sum of the per-token KL values at the valid positions divided
    by the number of all positions of the row; masked positions add
    nothing to the sum and are counted in the divisor. *)
Theorem C4_kl_scalar_mean_over_all_positions
    (kls masks : list (list Qc)) (i : nat) (kl mask : list Qc) :
  kls !! i = Some kl → masks !! i = Some mask →
  length kl = length mask → kl ≠ [] →
  Forall (λ m, m = 0 ∨ m = 1) mask →
  kl_scalars kls masks !! i
  = Some (Fin (tsum ((filter (λ p, p.2 = 1) (zip kl mask)).*1)
               / Qc_of_Z (Z.of_nat (length kl)))).
Proof.
  intros Hkl Hmask Hlen Hne H01. unfold kl_scalars.
  rewrite lookup_zip_with, Hkl, Hmask. simpl.
  by rewrite kl_scalar_value, tsum_tmul_mask.
Qed.

Lemma C4_kl_scalar_witness :
  kl_scalars [[Qc_of_Z 1; Qc_of_Z 1]] [[1; 0]] !! 0%nat
  = Some (Fin (tsum ((filter (λ p, p.2 = 1)
                        (zip [Qc_of_Z 1; Qc_of_Z 1] [1; 0])).*1)
               / Qc_of_Z (Z.of_nat 2))).
Proof.
  apply C4_kl_scalar_mean_over_all_positions;
    [reflexivity|reflexivity|reflexivity|discriminate|].
  constructor; [right; reflexivity|].
  constructor; [left; reflexivity|constructor].
Defined.

(** A row with one valid and one masked position: the code yields 1/2,
    the masked mean is 1. *)
Lemma C4_kl_scalar_is_not_masked_mean :
  kl_scalar [Qc_of_Z 1; Qc_of_Z 1] [1; 0] = Fin (Q2Qc (1 # 2)) ∧
  masked_mean_spec [Qc_of_Z 1; Qc_of_Z 1] [1; 0] = Fin 1 ∧
  kl_scalar [Qc_of_Z 1; Qc_of_Z 1] [1; 0]
  ≠ masked_mean_spec [Qc_of_Z 1; Qc_of_Z 1] [1; 0].
Proof.
  assert (H1 : kl_scalar [Qc_of_Z 1; Qc_of_Z 1] [1; 0] = Fin (Q2Qc (1 # 2))).
  { vm_compute. apply (f_equal Fin), Qc_is_canon. reflexivity. }
  assert (H2 : masked_mean_spec [Qc_of_Z 1; Qc_of_Z 1] [1; 0] = Fin 1).
  { vm_compute. apply (f_equal Fin), Qc_is_canon. reflexivity. }
  rewrite H1, H2. split; [done|]. split; [done|].
  intros H. inversion H.
Qed.

(** ** Rollout metrics *)

Lemma tsum_cons (x : Qc) (l : list Qc) : tsum (x :: l) = x + tsum l.
Proof. reflexivity. Qed.

Lemma tsum_app (l k : list Qc) : tsum (l ++ k) = tsum l + tsum k.
Proof.
  induction l as [|x l IH]; simpl.
  - by rewrite Qcplus_0_l.
  - by rewrite IH, Qcplus_assoc.
Qed.

Section metrics.
Implicit Types (s : LocalSums) (b : RolloutBatch) (bs : list RolloutBatch).

Lemma add_sums_0_r s : add_sums s sums0 = s.
Proof. destruct s. unfold add_sums. simpl. by rewrite !Qcplus_0_r. Qed.

Lemma add_sums_assoc s1 s2 s3 :
  add_sums (add_sums s1 s2) s3 = add_sums s1 (add_sums s2 s3).
Proof. unfold add_sums. simpl. by rewrite <- !Qcplus_assoc. Qed.

Lemma accumulate_add_sums s b :
  accumulate s b = add_sums s (accumulate sums0 b).
Proof. unfold accumulate, add_sums. simpl. by rewrite !Qcplus_0_l. Qed.

Lemma foldl_accumulate_add_sums s bs :
  foldl accumulate s bs = add_sums s (foldl accumulate sums0 bs).
Proof.
  revert s. induction bs as [|b bs IH]; intros s; simpl.
  - by rewrite add_sums_0_r.
  - rewrite IH, (IH (accumulate sums0 b)), accumulate_add_sums.
    apply add_sums_assoc.
Qed.

(** The sum-reduction adds the sums of the workers entry by entry... *)
Lemma all_reduce_sums s (peers : list LocalSums) :
  all_reduce (sums_to_tensor s) (sums_to_tensor <$> peers)
  = sums_to_tensor (foldl add_sums s peers).
Proof.
  revert s. induction peers as [|p peers IH]; intros s; [done|].
  simpl. rewrite <- IH. done.
Qed.

Lemma foldl_add_sums_workers s (peers : list (list RolloutBatch)) :
  foldl add_sums s (foldl accumulate sums0 <$> peers)
  = foldl accumulate s (concat peers).
Proof.
  revert s. induction peers as [|p peers IH]; intros s; [done|].
  simpl. by rewrite IH, foldl_app, <- foldl_accumulate_add_sums.
Qed.

(** ... which gives the sums of one worker holding all records. *)
Lemma all_reduce_worker_tensors bs (peers : list (list RolloutBatch)) :
  all_reduce (worker_tensor bs) (worker_tensor <$> peers)
  = worker_tensor (bs ++ concat peers).
Proof.
  change (worker_tensor <$> peers)
    with ((sums_to_tensor ∘ foldl accumulate sums0) <$> peers).
  rewrite list_fmap_compose. unfold worker_tensor.
  by rewrite all_reduce_sums, foldl_add_sums_workers, foldl_app.
Qed.

(** The sums of a worker, field by field. *)
Lemma foldl_accumulate_fields bs :
  let s := foldl accumulate sums0 bs in
  sum_response_lengths s
  = tsum ((λ b, Qc_of_Z (zsum (zsub (response_lengths b) (prompt_lengths b)))) <$> bs) ∧
  sum_prompt_lengths s = tsum ((λ b, Qc_of_Z (zsum (prompt_lengths b))) <$> bs) ∧
  sum_rewards s = tsum ((λ b, tsum (rm_rewards b)) <$> bs) ∧
  sum_rm_rewards s = tsum ((λ b, tsum (rm_rewards b)) <$> bs) ∧
  sum_ifeval_rewards s = tsum ((λ b, tsum (ifeval_rewards b)) <$> bs) ∧
  num_samples s
  = Qc_of_Z (Z.of_nat (length (concat (prompt_lengths <$> bs)))).
Proof.
  induction bs as [|b bs IH].
  - repeat split. exact (eq_sym Z2Qc_inj_0).
  - cbv zeta in *. cbn [foldl].
    rewrite foldl_accumulate_add_sums.
    destruct IH as (IH1 & IH2 & IH3 & IH4 & IH5 & IH6).
    unfold add_sums. cbn [sum_response_lengths sum_prompt_lengths sum_rewards
      sum_rm_rewards sum_ifeval_rewards num_samples].
    rewrite IH1, IH2, IH3, IH4, IH5, IH6.
    unfold accumulate, sums0.
    cbn [sum_response_lengths sum_prompt_lengths sum_rewards
      sum_rm_rewards sum_ifeval_rewards num_samples].
    rewrite !fmap_cons, !tsum_cons, !Qcplus_0_l.
    repeat split.
    cbn [concat]. by rewrite length_app, Nat2Z.inj_add, Z2Qc_inj_add.
Qed.

Lemma num_samples_plus_epsilon_ne_0 bs :
  num_samples (foldl accumulate sums0 bs) + epsilon ≠ 0.
Proof.
  destruct (foldl_accumulate_fields bs) as (_ & _ & _ & _ & _ & ->).
  intros H.
  assert (H0 : 0 ≤ Qc_of_Z (Z.of_nat (length (concat (prompt_lengths <$> bs))))).
  { rewrite <- Z2Qc_inj_0. apply (proj1 (Z2Qc_inj_le _ _)). apply Nat2Z.is_nonneg. }
  assert (He : 0 < epsilon) by reflexivity.
  pose proof (Qcplus_nonneg_pos _ _ H0 He) as Hpos.
  rewrite H in Hpos. by apply Qclt_not_eq in Hpos.
Qed.

(** The reduced means: each is the sum over the records of all workers
    over the number of their samples plus [epsilon]; the mean reported
    as [global_rewards] is that of the reward-model rewards. *)
Lemma compute_global_rollout_metrics_value ids_to_text bs
    (peers : list (list RolloutBatch)) (tbl : option Table) s :
  local_rollout_metrics ids_to_text bs = Ok (tbl, s) →
  let all := bs ++ concat peers in
  let n := Qc_of_Z (Z.of_nat (length (concat (prompt_lengths <$> all)))) in
  compute_global_rollout_metrics ids_to_text bs (worker_tensor <$> peers)
  = Ok {| table := tbl;
          global_response_lengths_mean :=
            tsum ((λ b, Qc_of_Z (zsum (zsub (response_lengths b) (prompt_lengths b))))
                    <$> all) / (n + epsilon);
          global_prompt_lengths :=
            tsum ((λ b, Qc_of_Z (zsum (prompt_lengths b))) <$> all) / (n + epsilon);
          global_rewards :=
            tsum ((λ b, tsum (rm_rewards b)) <$> all) / (n + epsilon);
          global_rm_rewards :=
            tsum ((λ b, tsum (rm_rewards b)) <$> all) / (n + epsilon);
          global_ifeval_rewards :=
            tsum ((λ b, tsum (ifeval_rewards b)) <$> all) / (n + epsilon) |}.
Proof.
  intros Hloc. cbv zeta. unfold compute_global_rollout_metrics.
  rewrite Hloc. simpl.
  assert (s = foldl accumulate sums0 bs) as ->.
  { unfold local_rollout_metrics in Hloc.
    destruct bs as [|b bs]; simpl in Hloc; [by injection Hloc|].
    destruct (table_of ids_to_text b); simpl in Hloc; [by injection Hloc|done]. }
  fold (worker_tensor bs). rewrite all_reduce_worker_tensors.
  unfold worker_tensor, sums_to_tensor.
  pose proof (num_samples_plus_epsilon_ne_0 (bs ++ concat peers)) as Hne.
  rewrite decide_False by done.
  by destruct (foldl_accumulate_fields (bs ++ concat peers))
    as (-> & -> & -> & -> & -> & ->).
Qed.

(** The logged example is built from the first sample of the record. *)
Lemma table_of_value ids_to_text b reward rm_reward ifeval_reward
    prompt_length response_length response_token
    rs rms ifs pls rls rts :
  rewards b = reward :: rs →
  rm_rewards b = rm_reward :: rms →
  ifeval_rewards b = ifeval_reward :: ifs →
  prompt_lengths b = prompt_length :: pls →
  response_lengths b = response_length :: rls →
  response_tokens b = response_token :: rts →
  table_of ids_to_text b
  = Ok {| table_reward := rm_reward;
          table_rm_reward := rm_reward;
          table_ifeval_reward := ifeval_reward;
          table_prompt := ids_to_text (slice_to response_token prompt_length);
          table_response :=
            ids_to_text (slice response_token prompt_length response_length) |}.
Proof. unfold table_of. by intros -> -> -> -> -> ->. Qed.

End metrics.

(** C3, on a worker whose only record has combined reward 3,
    reward-model reward 2 and constraint reward 1: the mean reported as
    [global_rewards] is [2 / (1 + 1e-6)], the mean of the reward-model
    reward, and not the mean [3 / (1 + 1e-6)] of the combined reward; the
    other means are the sums over the sample count plus [1e-6]. *)
Theorem C3_global_rewards_is_rm_mean :
  ∃ m : Metrics,
    compute_global_rollout_metrics example_ids_to_text [example_rollout_batch] []
    = Ok m ∧
    global_response_lengths_mean m = Qc_of_Z 3 / (Qc_of_Z 1 + epsilon) ∧
    global_prompt_lengths m = Qc_of_Z 2 / (Qc_of_Z 1 + epsilon) ∧
    global_rm_rewards m = Qc_of_Z 2 / (Qc_of_Z 1 + epsilon) ∧
    global_ifeval_rewards m = Qc_of_Z 1 / (Qc_of_Z 1 + epsilon) ∧
    global_rewards m = Qc_of_Z 2 / (Qc_of_Z 1 + epsilon) ∧
    global_rewards m
    ≠ tsum (rewards example_rollout_batch) / (Qc_of_Z 1 + epsilon).
Proof.
  eexists. split.
  { exact (compute_global_rollout_metrics_value example_ids_to_text
             [example_rollout_batch] [] _ _ eq_refl). }
  cbn [global_response_lengths_mean global_prompt_lengths global_rewards
       global_rm_rewards global_ifeval_rewards].
  repeat split; try (apply Qc_is_canon; vm_compute; reflexivity).
  intros H. apply (f_equal this) in H. vm_compute in H. discriminate.
Qed.

(** C10, on the same record: the logged example carries the decoded
    prompt and response of the first sample, its reward-model reward and
    its constraint reward, and under [reward] the reward-model reward 2
    again instead of the combined reward 3. *)
Theorem C10_table_reward_is_rm_reward :
  ∃ (m : Metrics) (t : Table),
    compute_global_rollout_metrics example_ids_to_text [example_rollout_batch] []
    = Ok m ∧
    table m = Some t ∧
    table_prompt t = "Say hi" ∧
    table_response t = " Hi there!" ∧
    table_rm_reward t = Qc_of_Z 2 ∧
    table_ifeval_reward t = Qc_of_Z 1 ∧
    table_reward t = Qc_of_Z 2 ∧
    Py.first (rewards example_rollout_batch) = Ok (Qc_of_Z 3) ∧
    table_reward t ≠ Qc_of_Z 3.
Proof.
  eexists; eexists. split.
  { exact (compute_global_rollout_metrics_value example_ids_to_text
             [example_rollout_batch] [] _ _ eq_refl). }
  split; [reflexivity|].
  repeat split.
  intros H%Z2Qc_inj. discriminate.
Qed.

(** ** The RLOO baseline *)

Section tensor_lemmas.

Lemma tsum_Permutation (l k : list Qc) : l ≡ₚ k → tsum l = tsum k.
Proof.
  induction 1 as [|x l k _ IH|x y l|l1 l2 l3 _ IH1 _ IH2]; simpl.
  - done.
  - by rewrite IH.
  - by rewrite !Qcplus_assoc, (Qcplus_comm x y).
  - by rewrite IH1.
Qed.

Lemma forallb_zip_eqb (r u : list Z) :
  length r = length u →
  forallb id (zip_with Z.eqb r u) = true ↔ r = u.
Proof.
  revert u. induction r as [|x r IH]; intros [|y u] Hlen; simpl in *; try done.
  rewrite andb_true_iff, IH by lia. unfold id. rewrite Z.eqb_eq.
  split; [by intros [-> ->]|by intros [= -> ->]].
Qed.

Lemma mask_select_seq {A} (rows : list A) (test : A → bool) (f : nat → bool)
    (s : nat) :
  (∀ i r, rows !! i = Some r → test r = f (s + i)%nat) →
  mask_select (seq s (length rows)) (test <$> rows)
  = filter (λ k, f k = true) (seq s (length rows)).
Proof.
  revert s. induction rows as [|r rows IH]; intros s H; [done|].
  assert (Hr : test r = f s).
  { rewrite (H 0%nat r eq_refl). f_equal. lia. }
  assert (Hrest : mask_select (seq (S s) (length rows)) (test <$> rows)
                  = filter (λ k, f k = true) (seq (S s) (length rows))).
  { apply IH. intros i r' Hi. rewrite (H (S i) r' Hi). f_equal. lia. }
  unfold mask_select in *. simpl. rewrite !filter_cons. simpl.
  rewrite <- Hrest, <- Hr.
  by destruct (test r).
Qed.

(** Leaving out the diagonal: row [k] of [1 - eye(n)] times [v]. *)
Lemma tsum_off_diagonal_before (v : list Qc) (s k : nat) :
  (k < s)%nat →
  tsum (tmul ((λ j, 1 - (if decide (k = j) then 1 else 0)) <$> seq s (length v)) v)
  = tsum v.
Proof.
  unfold tmul. revert s. induction v as [|y v IH]; intros s Hk; [done|].
  cbn [length seq]. rewrite fmap_cons. cbn [zip_with]. rewrite !tsum_cons.
  rewrite (IH (S s)) by lia.
  rewrite decide_False by lia.
  f_equal. ring.
Qed.

Lemma tsum_off_diagonal (v : list Qc) (s k : nat) (x : Qc) :
  (s ≤ k)%nat → v !! (k - s)%nat = Some x →
  tsum (tmul ((λ j, 1 - (if decide (k = j) then 1 else 0)) <$> seq s (length v)) v)
  = tsum v - x.
Proof.
  revert s. induction v as [|y v IH]; intros s Hk Hx; [done|].
  cbn [length seq]. rewrite fmap_cons. unfold tmul. cbn [zip_with].
  fold (tmul ((λ j, 1 - (if decide (k = j) then 1 else 0)) <$> seq (S s) (length v)) v).
  rewrite !tsum_cons.
  destruct (decide (k = s)) as [->|Hne].
  - rewrite Nat.sub_diag in Hx. injection Hx as ->.
    rewrite tsum_off_diagonal_before by lia. ring.
  - replace (k - s)%nat with (S (k - S s)) in Hx by lia. simpl in Hx.
    rewrite (IH (S s)) by (done || lia). ring.
Qed.

Lemma matmul_leave_one_out (v : list Qc) :
  matmul (one_minus <$> eye (length v)) v = (λ x, tsum v - x) <$> v.
Proof.
  apply list_eq. intros k. unfold matmul, eye, one_minus.
  rewrite <- !list_fmap_compose, !list_lookup_fmap.
  destruct (v !! k) as [x|] eqn:Hk.
  - rewrite lookup_seq_lt by (by eapply lookup_lt_Some). simpl.
    rewrite <- list_fmap_compose. f_equal.
    apply (tsum_off_diagonal v 0 k x); [lia|by rewrite Nat.sub_0_r].
  - by rewrite lookup_seq_ge by (by apply lookup_ge_None).
Qed.

End tensor_lemmas.

Section index_put_lemmas.
Implicit Types (t vals : list fval) (idx : list nat).

Lemma index_put_cons t k v idx vals :
  index_put t (k :: idx) (v :: vals) = index_put (<[k := v]> t) idx vals.
Proof. reflexivity. Qed.

Lemma length_index_put t idx vals : length (index_put t idx vals) = length t.
Proof.
  revert t vals. induction idx as [|k idx IH]; intros t [|v vals]; try done.
  by rewrite index_put_cons, IH, length_insert.
Qed.

Lemma index_put_lookup_notin t idx vals (k : nat) :
  k ∉ idx → index_put t idx vals !! k = t !! k.
Proof.
  revert t vals. induction idx as [|k0 idx IH]; intros t [|v vals] Hk; try done.
  rewrite index_put_cons, IH by set_solver.
  apply list_lookup_insert_ne. set_solver.
Qed.

Lemma index_put_lookup_in t idx vals (p k : nat) (v : fval) :
  NoDup idx → idx !! p = Some k → vals !! p = Some v → (k < length t)%nat →
  index_put t idx vals !! k = Some v.
Proof.
  revert t vals p.
  induction idx as [|k0 idx IH]; intros t [|v0 vals] p Hnd Hk Hv Hlt; try done.
  rewrite index_put_cons. apply NoDup_cons in Hnd as [Hnotin Hnd].
  destruct p as [|p]; simpl in *.
  - injection Hk as ->. injection Hv as ->.
    rewrite index_put_lookup_notin by done.
    by apply list_lookup_insert_eq.
  - apply (IH _ _ p); try done. by rewrite length_insert.
Qed.

End index_put_lemmas.

Lemma filter_others_notin {A} (P : A → Prop) `{∀ x, Decision (P x)}
    `{EqDecision A} (i : A) (l : list A) :
  i ∉ l → filter (λ j, j ≠ i ∧ P j) l = filter P l.
Proof.
  induction l as [|y l IH]; intros Hi; [done|].
  apply not_elem_of_cons in Hi as [Hy Hi]. rewrite !filter_cons, IH by done.
  destruct (decide (P y)).
  - by rewrite decide_True by done.
  - by rewrite decide_False by (by intros [_ ?]).
Qed.

Section rloo.
Variables (penalty : Qc) (batch : RolloutBatch).
Hypothesis Hshape : batch_shaped batch.

Local Abbreviation rows := (prompt_tokens batch).
Local Abbreviation reg := (regularized_reward penalty batch).

Lemma prompt_idx_group (u : list Z) : u ∈ rows → prompt_idx batch u = group batch u.
Proof.
  intros Hu. destruct Hshape as [[width Hw] _].
  rewrite Forall_forall in Hw.
  unfold prompt_idx, arange, rows_eq_all, group.
  rewrite (mask_select_seq rows _ (λ k, bool_decide (rows !! k = Some u)) 0).
  - apply list_filter_iff. intros k. apply bool_decide_eq_true.
  - intros i r Hi. simpl.
    assert (Hlen : length r = length u).
    { rewrite (Hw r), (Hw u); [done|done|]. by eapply list_elem_of_lookup_2. }
    rewrite Hi. apply eq_true_iff_eq.
    rewrite forallb_zip_eqb, bool_decide_eq_true by done.
    split; [by intros ->|by intros [= ->]].
Qed.

Lemma NoDup_group u : NoDup (group batch u).
Proof. apply NoDup_filter, NoDup_seq. Qed.

Lemma elem_of_group u k : k ∈ group batch u ↔ rows !! k = Some u.
Proof.
  unfold group. rewrite list_elem_of_filter, elem_of_seq.
  split; [by intros [? _]|].
  intros Hk. split; [done|]. apply lookup_lt_Some in Hk. lia.
Qed.

Lemma length_reg : length reg = length rows.
Proof.
  destruct Hshape as (_ & Hr & Hk).
  unfold regularized_reward, tsub, scalet.
  rewrite length_zip_with_l_eq; [done|]. by rewrite length_fmap, Hr, Hk.
Qed.

Lemma rloo_step_lookup (acc : list fval) (u p : list Z) (k : nat) :
  u ∈ rows → length acc = length rows → rows !! k = Some p →
  rloo_step penalty batch acc u !! k
  = if decide (p = u) then Some (rloo_value penalty batch u k) else acc !! k.
Proof.
  intros Hu Hacc Hk. unfold rloo_step.
  rewrite prompt_idx_group by done.
  unfold index_select at 1. rewrite <- (length_fmap (λ k, reg !!! k) (group batch u)).
  fold (index_select reg (group batch u)).
  rewrite matmul_leave_one_out, <- list_fmap_compose.
  case_decide as Hp.
  - subst p. apply elem_of_group in Hk as Hin.
    apply list_elem_of_lookup in Hin as [pos Hpos].
    apply (index_put_lookup_in _ _ _ pos).
    + apply NoDup_group.
    + done.
    + unfold index_select. rewrite <- list_fmap_compose, list_lookup_fmap, Hpos.
      simpl. unfold rloo_value, index_select. by rewrite length_fmap.
    + rewrite Hacc. by eapply lookup_lt_Some.
  - apply index_put_lookup_notin. rewrite elem_of_group, Hk. congruence.
Qed.

Lemma length_rloo_step acc u :
  length (rloo_step penalty batch acc u) = length acc.
Proof. unfold rloo_step. apply length_index_put. Qed.

Lemma foldl_rloo_step_lookup (us : list (list Z)) (acc : list fval)
    (p : list Z) (k : nat) :
  (∀ u, u ∈ us → u ∈ rows) → length acc = length rows → rows !! k = Some p →
  foldl (rloo_step penalty batch) acc us !! k
  = if decide (p ∈ us) then Some (rloo_value penalty batch p k) else acc !! k.
Proof.
  revert acc. induction us as [|u us IH]; intros acc Hus Hacc Hk.
  - by rewrite decide_False by set_solver.
  - cbn [foldl]. rewrite IH; [|set_solver|by rewrite length_rloo_step|done].
    rewrite (rloo_step_lookup acc u p k) by (done || set_solver).
    destruct (decide (p = u)) as [->|Hne].
    + rewrite (decide_True (P := u ∈ u :: us)) by set_solver.
      by destruct (decide (u ∈ us)).
    + destruct (decide (p ∈ us)) as [Hin|Hnin].
      * by rewrite (decide_True (P := p ∈ u :: us)) by set_solver.
      * by rewrite (decide_False (P := p ∈ u :: us))
          by (rewrite elem_of_cons; intros [?|?]; done).
Qed.

Lemma elem_of_unique (p : list Z) : p ∈ unique rows ↔ p ∈ rows.
Proof.
  unfold unique. by rewrite merge_sort_Permutation, elem_of_remove_dups.
Qed.

(** Each sample of the batch gets the value of its own group. *)
Lemma get_rloo_baseline_lookup (p : list Z) (k : nat) :
  rows !! k = Some p →
  baseline (get_rloo_baseline penalty batch) !! k = Some (rloo_value penalty batch p k).
Proof.
  intros Hk. unfold get_rloo_baseline. simpl.
  rewrite (foldl_rloo_step_lookup _ _ p k); try done.
  - rewrite decide_True; [done|].
    apply elem_of_unique. by eapply list_elem_of_lookup_2.
  - intros u. apply elem_of_unique.
  - unfold zeros_like. rewrite length_fmap. by destruct Hshape as (_ & -> & _).
Qed.

Lemma length_foldl_rloo_step (us : list (list Z)) (acc : list fval) :
  length (foldl (rloo_step penalty batch) acc us) = length acc.
Proof.
  revert acc. induction us as [|u us IH]; intros acc; [done|].
  cbn [foldl]. by rewrite IH, length_rloo_step.
Qed.

Lemma length_get_rloo_baseline :
  length (baseline (get_rloo_baseline penalty batch)) = length rows.
Proof.
  unfold get_rloo_baseline. cbn [baseline with_baseline].
  rewrite length_foldl_rloo_step. unfold zeros_like.
  rewrite length_fmap. by destruct Hshape as (_ & -> & _).
Qed.

(** The group of a sample is the sample and the other members. *)
Lemma group_others (i : nat) (p : list Z) :
  rows !! i = Some p → group batch p ≡ₚ i :: others_of batch i p.
Proof.
  intros Hi. unfold group, others_of.
  assert (Hin : i ∈ seq 0 (length rows)).
  { apply elem_of_seq. apply lookup_lt_Some in Hi. lia. }
  pose proof (NoDup_seq 0 (length rows)) as Hnd.
  revert Hin Hnd. generalize (seq 0 (length rows)) as l.
  induction l as [|x l IH]; intros Hin Hnd; [by apply elem_of_nil in Hin|].
  apply NoDup_cons in Hnd as [Hx Hnd].
  destruct (decide (x = i)) as [->|Hne].
  - rewrite filter_cons_True by done.
    rewrite (filter_cons_False (λ j, j ≠ i ∧ rows !! j = Some p))
      by (by intros [? _]).
    by rewrite filter_others_notin.
  - apply elem_of_cons in Hin as [->|Hin]; [done|].
    rewrite !filter_cons. specialize (IH Hin Hnd).
    destruct (decide (rows !! x = Some p)).
    + rewrite decide_True by done. rewrite IH. apply Permutation_swap.
    + by rewrite decide_False by (by intros [_ ?]).
Qed.

Lemma rloo_value_others (i : nat) (p : list Z) :
  rows !! i = Some p →
  rloo_value penalty batch p i
  = true_divide (tsum (index_select reg (others_of batch i p)))
                (Qc_of_Z (Z.of_nat (group_size batch i p) - 1)).
Proof.
  intros Hi. unfold rloo_value, group_size, index_select.
  pose proof (group_others i p Hi) as Hperm.
  rewrite (Permutation_length Hperm).
  rewrite (tsum_Permutation _ _ (fmap_Permutation (λ k, reg !!! k) _ _ Hperm)).
  rewrite fmap_cons, tsum_cons. cbn [length]. f_equal. ring.
Qed.

Lemma group_size_divisor (i : nat) (p : list Z) :
  Qc_of_Z (Z.of_nat (group_size batch i p) - 1) = 0
  ↔ group_size batch i p = 1%nat.
Proof.
  rewrite <- Z2Qc_inj_0, Z2Qc_inj_iff. unfold group_size. lia.
Qed.

End rloo.

(** The baseline of a sample, whatever the size of its group. *)
Lemma get_rloo_baseline_others (penalty : Qc) (batch : RolloutBatch)
    (i : nat) (p : list Z) :
  batch_shaped batch → prompt_tokens batch !! i = Some p →
  baseline (get_rloo_baseline penalty batch) !! i
  = Some (true_divide
            (tsum (index_select (regularized_reward penalty batch)
                                (others_of batch i p)))
            (Qc_of_Z (Z.of_nat (group_size batch i p) - 1))).
Proof.
  intros Hshape Hi.
  by rewrite (get_rloo_baseline_lookup penalty batch Hshape p i Hi),
    (rloo_value_others penalty batch i p Hi).
Qed.



(** C8: [get_rloo_baseline] divides by [n - 1] without a guard.  When
    every prompt group of the batch has at least two members no divisor
    is zero and every baseline is a finite number; a sample that is alone
    in its group is divided by zero, and its baseline is [nan]. *)
Theorem C8_rloo_singleton_group (penalty : Qc) (batch : RolloutBatch) :
  batch_shaped batch →
  ((∀ (i : nat) (p : list Z),
      prompt_tokens batch !! i = Some p → (2 ≤ group_size batch i p)%nat) →
   (∀ (i : nat) (p : list Z),
      prompt_tokens batch !! i = Some p →
      Qc_of_Z (Z.of_nat (group_size batch i p) - 1) ≠ 0) ∧
   Forall (λ v, is_finite v = true) (baseline (get_rloo_baseline penalty batch))) ∧
  (∀ (i : nat) (p : list Z),
     prompt_tokens batch !! i = Some p → group_size batch i p = 1%nat →
     Qc_of_Z (Z.of_nat (group_size batch i p) - 1) = 0 ∧
     baseline (get_rloo_baseline penalty batch) !! i = Some NaN).
Proof.
  intros Hshape. split.
  - intros Hall. split.
    + intros i p Hi. rewrite group_size_divisor. specialize (Hall i p Hi). lia.
    + apply Forall_lookup. intros i v Hv.
      assert (Hlt : (i < length (prompt_tokens batch))%nat).
      { rewrite <- (length_get_rloo_baseline penalty batch Hshape).
        by eapply lookup_lt_Some. }
      apply lookup_lt_is_Some in Hlt as [p Hi].
      rewrite (get_rloo_baseline_others penalty batch i p Hshape Hi) in Hv.
      injection Hv as <-. unfold true_divide.
      rewrite decide_False; [done|].
      rewrite group_size_divisor. specialize (Hall i p Hi). lia.
  - intros i p Hi Hn.
    assert (Hd : Qc_of_Z (Z.of_nat (group_size batch i p) - 1) = 0)
      by by apply group_size_divisor.
    split; [exact Hd|].
    rewrite (get_rloo_baseline_others penalty batch i p Hshape Hi), Hd.
    unfold group_size in Hn.
    assert (others_of batch i p = []) as ->.
    { apply length_zero_iff_nil. lia. }
    reflexivity.
Qed.

Lemma C8_rloo_singleton_group_witness :
  batch_shaped example_rloo_batch ∧
  baseline (get_rloo_baseline (Qc_of_Z 1) example_rloo_batch) !! 5%nat = Some NaN ∧
  batch_shaped example_pair_batch ∧
  Forall (λ v, is_finite v = true)
         (baseline (get_rloo_baseline (Qc_of_Z 1) example_pair_batch)).
Proof.
  assert (H1 : batch_shaped example_rloo_batch).
  { split; [exists 2%nat; repeat constructor|by split]. }
  assert (H2 : batch_shaped example_pair_batch).
  { split; [exists 3%nat; repeat constructor|by split]. }
  split; [exact H1|]. split; [|split; [exact H2|]].
  - apply (proj2 (C8_rloo_singleton_group (Qc_of_Z 1) example_rloo_batch H1)
             5%nat [5; 6]%Z); reflexivity.
  - apply (proj1 (C8_rloo_singleton_group (Qc_of_Z 1) example_pair_batch H2)).
    intros [|[|i]] p Hi; try discriminate Hi;
      injection Hi as <-; vm_compute; lia.
Defined.

(** * Further properties of the trainer *)

(** ** Checkpoint state: error and edge behaviour *)

(** X1: a snapshot that lacks one of the three keys makes
    [load_state_dict] raise [KeyError]; the counters read before the
    missing key are already assigned, the later ones and [max_steps] are
    left as they were. *)
Theorem X1_load_state_dict_missing_key (r : rank) (sd : gmap string Z)
    (t0 : Trainer) :
  (sd !! "step" = None → load_state_dict r sd t0 = (Raise KeyError, t0)) ∧
  (∀ s : Z, sd !! "step" = Some s → sd !! "consumed_samples" = None →
     load_state_dict r sd t0 = (Raise KeyError, with_step s t0)) ∧
  (∀ s c : Z, sd !! "step" = Some s → sd !! "consumed_samples" = Some c →
     sd !! "ppo_optimization_step" = None →
     load_state_dict r sd t0
     = (Raise KeyError, with_consumed_samples c (with_step s t0))).
Proof.
  unfold load_state_dict, mbind, M_bind, lift, getitem.
  split; [|split].
  - by intros ->.
  - by intros s -> ->.
  - by intros s c -> -> ->.
Qed.

Lemma X1_load_state_dict_missing_key_witness :
  load_state_dict Rank0 (delete "consumed_samples" example_snapshot) example_trainer
  = (Raise KeyError, with_step 17 example_trainer).
Proof.
  apply (proj1 (proj2 (X1_load_state_dict_missing_key Rank0
           (delete "consumed_samples" example_snapshot) example_trainer)));
    vm_compute; reflexivity.
Defined.



(** X3: a worker whose three loaded counters differ from those rank 0
    loaded does not go unnoticed: the worker or rank 0 raises
    [AssertionError]. *)
Theorem X3_checkpoint_mismatch_detected (sd0 sd : gmap string Z)
    (t0 t1 : Trainer) (s0 c0 o0 s c o : Z) :
  sd0 !! "step" = Some s0 →
  sd0 !! "consumed_samples" = Some c0 →
  sd0 !! "ppo_optimization_step" = Some o0 →
  sd !! "step" = Some s →
  sd !! "consumed_samples" = Some c →
  sd !! "ppo_optimization_step" = Some o →
  [s; c; o] ≠ [s0; c0; o0] →
  (load_state_dict Rank0 sd0 t0).1 = Raise AssertionError ∨
  (load_state_dict (RankOther (float32_of_int <$> [s0; c0; o0])) sd t1).1
  = Raise AssertionError.
Proof. apply load_state_dict_mismatch_detected. Qed.

Lemma X3_checkpoint_mismatch_detected_witness :
  (load_state_dict Rank0 example_snapshot example_trainer).1 = Raise AssertionError ∨
  (load_state_dict (RankOther (float32_of_int <$> [17; 2176; 34]%Z))
     (<["step" := 18%Z]> example_snapshot) example_trainer).1
  = Raise AssertionError.
Proof.
  apply (X3_checkpoint_mismatch_detected example_snapshot
           (<["step" := 18%Z]> example_snapshot) example_trainer example_trainer
           17 2176 34 18 2176 34); try reflexivity.
  discriminate.
Defined.

(** X4: [epoch], and with it [state_dict], raises [ZeroDivisionError]
    exactly when [num_steps_per_epoch] is zero; otherwise [state_dict]
    returns a snapshot. *)
Theorem X4_state_dict_zero_division (t : Trainer) :
  (num_steps_per_epoch t = 0%Z →
   epoch t = Raise ZeroDivisionError ∧ state_dict t = Raise ZeroDivisionError) ∧
  (num_steps_per_epoch t ≠ 0%Z →
   epoch t = Ok (step t / num_steps_per_epoch t)%Z ∧
   ∃ sd, state_dict t = Ok sd) ∧
  (∀ e, state_dict t = Raise e → e = ZeroDivisionError ∧ num_steps_per_epoch t = 0%Z).
Proof.
  unfold state_dict, epoch, floordiv.
  split; [|split].
  - intros ->. by rewrite decide_True.
  - intros Hne. rewrite decide_False by done. simpl. eauto.
  - intros e. case_decide; simpl; [|done]. by intros [= <-].
Qed.

Lemma X4_state_dict_zero_division_witness :
  state_dict (init (example_cfg None) 0) = Raise ZeroDivisionError ∧
  ∃ sd, state_dict example_trainer = Ok sd.
Proof.
  split.
  - apply (proj1 (X4_state_dict_zero_division (init (example_cfg None) 0))).
    reflexivity.
  - apply (proj1 (proj2 (X4_state_dict_zero_division example_trainer))).
    discriminate.
Defined.

(** X5: [set_max_steps] changes nothing but [max_steps], never leaves it
    above [num_steps_per_epoch * max_epochs] nor above an override [>= 0],
    and calling it again changes nothing. *)
Theorem X5_set_max_steps_bounds (t : Trainer) :
  set_max_steps (set_max_steps t) = set_max_steps t ∧
  set_max_steps t = with_max_steps (max_steps (set_max_steps t)) t ∧
  (max_steps (set_max_steps t)
   ≤ num_steps_per_epoch t * cfg_max_epochs (cfg t))%Z ∧
  (∀ o : Z, cfg_max_steps (cfg t) = Some o → (0 ≤ o)%Z →
     (max_steps (set_max_steps t) ≤ o)%Z) ∧
  (∀ o : Z, cfg_max_steps (cfg t) = Some o → (o < 0)%Z →
     max_steps (set_max_steps t)
     = (num_steps_per_epoch t * cfg_max_epochs (cfg t))%Z).
Proof.
  assert (Hset : ∀ t', set_max_steps t' = with_max_steps (max_steps_of t') t').
  { intros t'. unfold set_max_steps, max_steps_of.
    destruct (cfg_max_steps (cfg t')) as [o|]; simpl; [|done].
    destruct (Z.leb_spec 0 o); case_decide; done || lia. }
  split; [|split; [|split; [|split]]].
  - rewrite (Hset (set_max_steps t)), max_steps_of_set_max_steps.
    by rewrite (Hset t).
  - by rewrite set_max_steps_value, <- Hset.
  - rewrite set_max_steps_value. unfold max_steps_of.
    destruct (cfg_max_steps (cfg t)); [case_decide|]; lia.
  - intros o Ho Hpos. rewrite set_max_steps_value. unfold max_steps_of.
    rewrite Ho, decide_True by done. lia.
  - intros o Ho Hneg. rewrite set_max_steps_value. unfold max_steps_of.
    rewrite Ho, decide_False by lia. done.
Qed.

Lemma X5_set_max_steps_bounds_witness :
  (max_steps (set_max_steps (init (example_cfg (Some 25%Z)) 10)) ≤ 25)%Z.
Proof.
  apply (proj1 (proj2 (proj2 (proj2
           (X5_set_max_steps_bounds (init (example_cfg (Some 25%Z)) 10)))))
           25%Z); [reflexivity|lia].
Defined.

(** ** The RLOO baseline: further properties *)

Section rloo_more.
Variables (penalty : Qc).

Lemma regularized_reward_lookup (batch : RolloutBatch) (j : nat) :
  regularized_reward penalty batch !! j
  = (r ← rewards batch !! j; k ← init_policy_kl batch !! j;
     Some (r - penalty * k)).
Proof.
  unfold regularized_reward, tsub, scalet.
  rewrite lookup_zip_with, list_lookup_fmap.
  destruct (rewards batch !! j); simpl; [|done].
  by destruct (init_policy_kl batch !! j).
Qed.

Lemma tsum_fmap_affine (T d : Qc) (v : list Qc) :
  d ≠ 0 →
  tsum ((λ x, (T - x) / d) <$> v)
  = (Qc_of_Z (Z.of_nat (length v)) * T - tsum v) / d.
Proof.
  intros Hd. induction v as [|x v IH].
  - change (0 = (Qc_of_Z 0 * T - 0) / d). rewrite Z2Qc_inj_0. field. done.
  - rewrite fmap_cons, !tsum_cons, IH. cbn [length].
    rewrite Nat2Z.inj_succ, <- Z.add_1_r, Z2Qc_inj_add, Z2Qc_inj_1.
    generalize (Qc_of_Z (Z.of_nat (length v))) (tsum v). intros n S.
    field. done.
Qed.

Lemma tsum_bounds (lo hi : Qc) (v : list Qc) :
  Forall (λ x, lo ≤ x ∧ x ≤ hi) v →
  Qc_of_Z (Z.of_nat (length v)) * lo ≤ tsum v ∧
  tsum v ≤ Qc_of_Z (Z.of_nat (length v)) * hi.
Proof.
  induction 1 as [|x v [Hlo Hhi] _ [IHlo IHhi]].
  - change (Qc_of_Z 0 * lo ≤ 0 ∧ 0 ≤ Qc_of_Z 0 * hi).
    rewrite Z2Qc_inj_0, !Qcmult_0_l. split; apply Qcle_refl.
  - rewrite tsum_cons. cbn [length].
    rewrite Nat2Z.inj_succ, <- Z.add_1_r, Z2Qc_inj_add, Z2Qc_inj_1.
    rewrite !Qcmult_plus_distr_l, !Qcmult_1_l.
    rewrite (Qcplus_comm _ lo), (Qcplus_comm _ hi).
    split; by apply Qcplus_le_compat.
Qed.

End rloo_more.

(** X6: leave one out.  The baseline of sample [i] does not depend on
    the reward or the KL scalar of sample [i] itself: two batches with
    the same prompts that agree on the rewards and KL scalars of all
    other samples give sample [i] the same baseline. *)
Theorem X6_rloo_baseline_ignores_own_reward (penalty : Qc)
    (batch1 batch2 : RolloutBatch) (i : nat) :
  batch_shaped batch1 → batch_shaped batch2 →
  prompt_tokens batch1 = prompt_tokens batch2 →
  (∀ j, j ≠ i → rewards batch1 !! j = rewards batch2 !! j) →
  (∀ j, j ≠ i → init_policy_kl batch1 !! j = init_policy_kl batch2 !! j) →
  baseline (get_rloo_baseline penalty batch1) !! i
  = baseline (get_rloo_baseline penalty batch2) !! i.
Proof.
  intros Hs1 Hs2 Hrows Hrew Hkl.
  destruct (prompt_tokens batch1 !! i) as [p|] eqn:Hi.
  - rewrite (get_rloo_baseline_others penalty batch1 i p Hs1 Hi).
    rewrite Hrows in Hi.
    rewrite (get_rloo_baseline_others penalty batch2 i p Hs2 Hi).
    unfold group_size, others_of. rewrite <- Hrows.
    do 3 f_equal. unfold index_select. apply list_fmap_ext.
    intros k j Hk. apply list_elem_of_lookup_2, list_elem_of_filter in Hk as [[Hne _] _].
    rewrite !list_lookup_total_alt, !regularized_reward_lookup.
    by rewrite Hrew, Hkl.
  - rewrite !lookup_ge_None_2; [done| |].
    + rewrite (length_get_rloo_baseline penalty batch2 Hs2), <- Hrows.
      by apply lookup_ge_None.
    + rewrite (length_get_rloo_baseline penalty batch1 Hs1).
      by apply lookup_ge_None.
Qed.

Lemma X6_rloo_baseline_ignores_own_reward_witness :
  baseline (get_rloo_baseline (Qc_of_Z 1) example_pair_batch) !! 0%nat
  = baseline (get_rloo_baseline (Qc_of_Z 1)
                {| prompt_tokens := prompt_tokens example_pair_batch;
                   response_tokens := []; prompt_lengths := [];
                   response_lengths := [];
                   rewards := [Qc_of_Z 100; Qc_of_Z 1];
                   rm_rewards := []; ifeval_rewards := [];
                   init_policy_kl := [Qc_of_Z 7; Qc_of_Z 0];
                   baseline := [] |}) !! 0%nat.
Proof.
  apply X6_rloo_baseline_ignores_own_reward.
  - split; [exists 3%nat; repeat constructor|by split].
  - split; [exists 3%nat; repeat constructor|by split].
  - reflexivity.
  - intros [|[|j]] Hj; done.
  - intros [|[|j]] Hj; done.
Defined.

(** X7: within a prompt group of at least two members the baselines
    are finite and add up to the sum of the regularized rewards of the
    group, so the advantages (reward minus baseline) of a group add up
    to zero. *)
Theorem X7_rloo_group_sum_preserved (penalty : Qc) (batch : RolloutBatch)
    (p : list Z) :
  batch_shaped batch →
  (2 ≤ length (group batch p))%nat →
  ∃ bs : list Qc,
    (λ j, baseline (get_rloo_baseline penalty batch) !! j) <$> group batch p
    = (λ b, Some (Fin b)) <$> bs ∧
    tsum bs = tsum (index_select (regularized_reward penalty batch) (group batch p)).
Proof.
  intros Hshape Hn.
  set (reg := regularized_reward penalty batch).
  set (T := tsum (index_select reg (group batch p))).
  set (d := Qc_of_Z (Z.of_nat (length (group batch p)) - 1)).
  assert (Hd : d ≠ 0).
  { unfold d. rewrite <- Z2Qc_inj_0. intros H%Z2Qc_inj. lia. }
  exists ((λ x, (T - x) / d) <$> index_select reg (group batch p)). split.
  - unfold index_select. rewrite <- !list_fmap_compose.
    apply list_fmap_ext. intros k j Hk. unfold compose.
    apply list_elem_of_lookup_2, elem_of_group in Hk.
    rewrite (get_rloo_baseline_lookup penalty batch Hshape p j Hk).
    unfold rloo_value, true_divide. fold reg. fold T. fold d.
    by rewrite decide_False.
  - rewrite tsum_fmap_affine by done. fold T.
    unfold index_select at 1. rewrite length_fmap.
    unfold d. rewrite Z2Qc_inj_sub, Z2Qc_inj_1.
    unfold d in Hd. rewrite Z2Qc_inj_sub, Z2Qc_inj_1 in Hd.
    revert Hd. generalize (Qc_of_Z (Z.of_nat (length (group batch p)))) T.
    intros n S Hd. field. done.
Qed.

Lemma X7_rloo_group_sum_preserved_witness :
  ∃ bs : list Qc,
    (λ j, baseline (get_rloo_baseline (Qc_of_Z 1) example_rloo_batch) !! j)
      <$> group example_rloo_batch [1; 2]%Z
    = (λ b, Some (Fin b)) <$> bs ∧
    tsum bs = tsum (index_select (regularized_reward (Qc_of_Z 1) example_rloo_batch)
                                 (group example_rloo_batch [1; 2]%Z)).
Proof.
  apply X7_rloo_group_sum_preserved.
  - split; [exists 2%nat; repeat constructor|by split].
  - vm_compute. lia.
Defined.

(** X8: the baseline of a sample in a group of at least two members
    lies between any two bounds of the regularized rewards of the other
    members; when these are all equal to [c] the baseline is [c]. *)
Theorem X8_rloo_baseline_between_bounds (penalty : Qc) (batch : RolloutBatch)
    (i : nat) (p : list Z) (lo hi : Qc) :
  batch_shaped batch →
  prompt_tokens batch !! i = Some p →
  (2 ≤ group_size batch i p)%nat →
  Forall (λ x, lo ≤ x ∧ x ≤ hi)
         (index_select (regularized_reward penalty batch) (others_of batch i p)) →
  ∃ b : Qc,
    baseline (get_rloo_baseline penalty batch) !! i = Some (Fin b) ∧
    lo ≤ b ∧ b ≤ hi.
Proof.
  intros Hshape Hi Hn Hbounds.
  rewrite (get_rloo_baseline_others penalty batch i p Hshape Hi).
  unfold group_size in *.
  replace (Z.of_nat (S (length (others_of batch i p))) - 1)%Z
    with (Z.of_nat (length (others_of batch i p))) by lia.
  apply tsum_bounds in Hbounds as [Hlo Hhi].
  assert (Hlen : length (index_select (regularized_reward penalty batch)
                                      (others_of batch i p))
                 = length (others_of batch i p)) by apply length_fmap.
  rewrite Hlen in Hlo, Hhi.
  revert Hlo Hhi.
  generalize (tsum (index_select (regularized_reward penalty batch)
                                 (others_of batch i p))).
  assert (Hpos : 0 < Qc_of_Z (Z.of_nat (length (others_of batch i p)))).
  { rewrite <- Z2Qc_inj_0. apply (proj1 (Z2Qc_inj_lt _ _)). lia. }
  revert Hpos. generalize (Qc_of_Z (Z.of_nat (length (others_of batch i p)))).
  intros n Hpos T Hlo Hhi.
  assert (Hne : n ≠ 0) by (intros ->; by apply Qclt_not_eq in Hpos).
  exists (T / n). split.
  - unfold true_divide. by rewrite decide_False.
  - assert (HT : T / n * n = T) by (field; done).
    split; apply (Qcmult_le_mono_pos_r _ _ n Hpos); rewrite HT.
    + by rewrite Qcmult_comm.
    + by rewrite (Qcmult_comm hi).
Qed.

Lemma X8_rloo_baseline_between_bounds_witness :
  ∃ b : Qc,
    baseline (get_rloo_baseline (Qc_of_Z 1) example_rloo_batch) !! 0%nat
    = Some (Fin b) ∧
    Qc_of_Z 3 ≤ b ∧ b ≤ Qc_of_Z 5.
Proof.
  apply (X8_rloo_baseline_between_bounds (Qc_of_Z 1) example_rloo_batch 0
           [1; 2]%Z (Qc_of_Z 3) (Qc_of_Z 5)).
  - split; [exists 2%nat; repeat constructor|by split].
  - reflexivity.
  - vm_compute. lia.
  - repeat constructor; vm_compute; discriminate.
Defined.

Section training_groups.

Lemma accumulate_prompt_tokens_Some (c dup : list (list Z)) (n : nat) :
  accumulate_prompt_tokens (Some c) dup n = Some (c ++ concat (replicate n dup)).
Proof.
  revert c. induction n as [|n IH]; intros c; simpl.
  - by rewrite app_nil_r.
  - by rewrite IH, <- app_assoc.
Qed.

Lemma accumulate_prompt_tokens_None (dup : list (list Z)) (n : nat) :
  accumulate_prompt_tokens None dup n
  = match n with O => None | S _ => Some (concat (replicate n dup)) end.
Proof. destruct n; [done|]. simpl. by rewrite accumulate_prompt_tokens_Some. Qed.

Lemma length_filter_seq_lookup {A} (l : list A) (P : A → Prop)
    `{∀ x, Decision (P x)} (Q : nat → Prop) `{∀ k, Decision (Q k)} (s : nat) :
  (∀ i x, l !! i = Some x → (Q (s + i)%nat ↔ P x)) →
  length (filter Q (seq s (length l))) = length (filter P l).
Proof.
  revert s. induction l as [|x l IH]; intros s HQ; [done|].
  cbn [length seq]. rewrite !filter_cons.
  assert (Hx : Q s ↔ P x).
  { rewrite <- (HQ 0%nat x eq_refl). by rewrite Nat.add_0_r. }
  assert (Hrest : length (filter Q (seq (S s) (length l))) = length (filter P l)).
  { apply IH. intros i y Hi. rewrite <- (HQ (S i) y Hi).
    by replace (S s + i)%nat with (s + S i)%nat by lia. }
  destruct (decide (Q s)), (decide (P x)); cbn [length]; tauto || lia.
Qed.

Lemma length_filter_concat_replicate {A} (P : A → Prop) `{∀ x, Decision (P x)}
    (n : nat) (l : list A) :
  length (filter P (concat (replicate n l))) = (n * length (filter P l))%nat.
Proof.
  induction n as [|n IH]; [done|].
  cbn [replicate concat]. rewrite filter_app, length_app, IH. lia.
Qed.

Lemma group_size_count (batch : RolloutBatch) (i : nat) (p : list Z) :
  prompt_tokens batch !! i = Some p →
  group_size batch i p = length (filter (λ r, r = p) (prompt_tokens batch)).
Proof.
  intros Hi. unfold group_size.
  rewrite <- (length_filter_seq_lookup (prompt_tokens batch) (λ r, r = p)
                (λ k, prompt_tokens batch !! k = Some p) 0).
  - pose proof (group_others batch i p Hi) as Hperm.
    apply Permutation_length in Hperm. symmetry. exact Hperm.
  - intros k x Hk. simpl. rewrite Hk. split; congruence.
Qed.

Lemma baseline_finite_of_groups (penalty : Qc) (batch : RolloutBatch) :
  batch_shaped batch →
  (∀ i p, prompt_tokens batch !! i = Some p → (2 ≤ group_size batch i p)%nat) →
  Forall (λ v, is_finite v = true) (baseline (get_rloo_baseline penalty batch)).
Proof.
  intros Hshape Hall. apply Forall_lookup. intros i v Hv.
  assert (Hlt : (i < length (prompt_tokens batch))%nat).
  { rewrite <- (length_get_rloo_baseline penalty batch Hshape).
    by eapply lookup_lt_Some. }
  apply lookup_lt_is_Some in Hlt as [p Hi].
  rewrite (get_rloo_baseline_others penalty batch i p Hshape Hi) in Hv.
  injection Hv as <-. unfold true_divide.
  rewrite decide_False; [done|].
  rewrite group_size_divisor. specialize (Hall i p Hi). lia.
Qed.

End training_groups.



(** ** Rollout metrics: further properties *)

Section metrics_more.
Implicit Types (bs : list RolloutBatch) (peers : list (list RolloutBatch)).

Lemma concat_Permutation {A} (ls ks : list (list A)) :
  ls ≡ₚ ks → concat ls ≡ₚ concat ks.
Proof.
  induction 1 as [|x ls ks _ IH|x y ls|ls ks ms _ IH1 _ IH2]; simpl.
  - done.
  - by rewrite IH.
  - rewrite !app_assoc. by rewrite (Permutation_app_comm y x).
  - by rewrite IH1.
Qed.

Lemma local_rollout_metrics_Ok ids_to_text bs tbl s :
  local_rollout_metrics ids_to_text bs = Ok (tbl, s) →
  s = foldl accumulate sums0 bs.
Proof.
  unfold local_rollout_metrics.
  destruct bs as [|b bs]; simpl; [by intros [= _ <-]|].
  destruct (table_of ids_to_text b); simpl; [by intros [= _ <-]|done].
Qed.

Lemma compute_global_rollout_metrics_local ids_to_text bs peers :
  match local_rollout_metrics ids_to_text bs with
  | Ok (tbl, _) =>
      ∃ m, compute_global_rollout_metrics ids_to_text bs (worker_tensor <$> peers)
           = Ok m ∧ table m = tbl
  | Raise e =>
      compute_global_rollout_metrics ids_to_text bs (worker_tensor <$> peers)
      = Raise e
  end.
Proof.
  destruct (local_rollout_metrics ids_to_text bs) as [[tbl s]|e] eqn:Hloc.
  - rewrite (compute_global_rollout_metrics_value _ _ peers _ _ Hloc). eauto.
  - unfold compute_global_rollout_metrics. by rewrite Hloc.
Qed.

Lemma table_of_Raise ids_to_text (b : RolloutBatch) e :
  table_of ids_to_text b = Raise e →
  e = IndexError ∧
  (rewards b = [] ∨ rm_rewards b = [] ∨ ifeval_rewards b = [] ∨
   prompt_lengths b = [] ∨ response_lengths b = [] ∨ response_tokens b = []).
Proof.
  unfold table_of.
  destruct (rewards b); simpl; [intros [= <-]; auto|].
  destruct (rm_rewards b); simpl; [intros [= <-]; auto|].
  destruct (ifeval_rewards b); simpl; [intros [= <-]; auto|].
  destruct (prompt_lengths b); simpl; [intros [= <-]; auto 6|].
  destruct (response_lengths b); simpl; [intros [= <-]; auto 7|].
  destruct (response_tokens b); simpl; [intros [= <-]; auto 8|done].
Qed.

Lemma slice_to_slice {A} (l : list A) (a b : Z) :
  (0 ≤ a ≤ b)%Z → slice_to l a ++ slice l a b = slice_to l b.
Proof.
  intros Hab. unfold slice_to, slice, slice_bound.
  destruct (Z.ltb_spec a 0), (Z.ltb_spec b 0), (Z.ltb_spec 0 0); try lia.
  assert (Hlen : (0 ≤ Z.of_nat (length l))%Z) by lia.
  revert Hlen. generalize (Z.of_nat (length l)). intros len Hlen.
  replace (0 `min` len)%Z with 0%Z by lia.
  change (Z.to_nat 0) with 0%nat. rewrite !drop_0, !Z.sub_0_r.
  rewrite take_take_drop. f_equal. lia.
Qed.

Lemma slice_empty {A} (l : list A) (a b : Z) :
  (0 ≤ b ≤ a)%Z → slice l a b = [].
Proof.
  intros Hab. unfold slice, slice_bound.
  destruct (Z.ltb_spec a 0), (Z.ltb_spec b 0); try lia.
  replace (Z.to_nat _) with 0%nat by lia. done.
Qed.

End metrics_more.





(** X12: [compute_global_rollout_metrics] never divides by zero.  It
    fails only with [IndexError], when the first record of the worker
    has an empty field, so that no first sample can be logged; with no
    record at all it returns an empty example, and when no worker has a
    record every mean is 0. *)
Theorem X12_global_metrics_failures (ids_to_text : list Z → string)
    (bs : list RolloutBatch) (peers : list (list RolloutBatch)) :
  (∀ e, compute_global_rollout_metrics ids_to_text bs (worker_tensor <$> peers)
        = Raise e →
     e = IndexError ∧
     ∃ b rest, bs = b :: rest ∧
       (rewards b = [] ∨ rm_rewards b = [] ∨ ifeval_rewards b = [] ∨
        prompt_lengths b = [] ∨ response_lengths b = [] ∨ response_tokens b = [])) ∧
  (bs = [] →
   ∃ m, compute_global_rollout_metrics ids_to_text bs (worker_tensor <$> peers)
        = Ok m ∧ table m = None) ∧
  (∃ m, compute_global_rollout_metrics ids_to_text [] [] = Ok m ∧
        table m = None ∧
        global_response_lengths_mean m = 0 ∧ global_prompt_lengths m = 0 ∧
        global_rewards m = 0 ∧ global_rm_rewards m = 0 ∧
        global_ifeval_rewards m = 0).
Proof.
  split; [|split].
  - intros e He.
    pose proof (compute_global_rollout_metrics_local ids_to_text bs peers) as H.
    destruct (local_rollout_metrics ids_to_text bs) as [[tbl s]|e'] eqn:Hloc.
    + destruct H as (m & Hm & _). congruence.
    + assert (e' = e) as -> by congruence.
      unfold local_rollout_metrics in Hloc.
      destruct bs as [|b rest]; [done|]. cbn [bind] in Hloc.
      destruct (table_of ids_to_text b) as [t|e''] eqn:Ht; [done|].
      cbn [bind] in Hloc. injection Hloc as ->.
      apply table_of_Raise in Ht as [-> Hempty]. eauto.
  - intros ->.
    apply (compute_global_rollout_metrics_local ids_to_text [] peers).
  - eexists. split.
    + exact (compute_global_rollout_metrics_value ids_to_text [] [] _ _ eq_refl).
    + cbn [table global_response_lengths_mean global_prompt_lengths global_rewards
           global_rm_rewards global_ifeval_rewards].
      split; [done|]. unfold Qcdiv.
      repeat split; apply Qcmult_0_l.
Qed.

Lemma X12_global_metrics_failures_witness :
  compute_global_rollout_metrics example_ids_to_text
    [with_baseline [] {| prompt_tokens := []; response_tokens := [];
                         prompt_lengths := []; response_lengths := [];
                         rewards := []; rm_rewards := []; ifeval_rewards := [];
                         init_policy_kl := []; baseline := [] |}] []
  = Raise IndexError ∧
  ∃ m, compute_global_rollout_metrics example_ids_to_text [] [] = Ok m ∧
       table m = None.
Proof.
  split; [reflexivity|].
  apply (proj1 (proj2 (X12_global_metrics_failures example_ids_to_text [] []))).
  reflexivity.
Defined.

(** X13: the logged example decodes two adjacent segments of the first
    response: for [0 <= prompt_length <= response_length] the prompt is
    the first [prompt_length] tokens and prompt and response together
    are the first [response_length] tokens, none logged twice or left
    out; for [response_length <= prompt_length] the response is the
    decoding of no token. *)
Theorem X13_table_segments (ids_to_text : list Z → string) (b : RolloutBatch)
    (t : Table) (pl rl : Z) (tok : list Z) (pls rls : list Z) (rts : list (list Z)) :
  table_of ids_to_text b = Ok t →
  prompt_lengths b = pl :: pls →
  response_lengths b = rl :: rls →
  response_tokens b = tok :: rts →
  ((0 ≤ pl ≤ rl)%Z →
   ∃ p r, table_prompt t = ids_to_text p ∧ table_response t = ids_to_text r ∧
          p = take (Z.to_nat pl) tok ∧ p ++ r = take (Z.to_nat rl) tok) ∧
  ((0 ≤ rl ≤ pl)%Z → table_response t = ids_to_text []).
Proof.
  intros Ht Hpl Hrl Htok. unfold table_of in Ht.
  rewrite Hpl, Hrl, Htok in Ht.
  destruct (rewards b); [done|]. destruct (rm_rewards b); [done|].
  destruct (ifeval_rewards b); [done|]. cbn [first bind] in Ht.
  injection Ht as <-. cbn [table_prompt table_response].
  assert (Htake : ∀ k : Z, (0 ≤ k)%Z → slice_to tok k = take (Z.to_nat k) tok).
  { intros k Hk. unfold slice_to, slice, slice_bound.
    destruct (Z.ltb_spec k 0), (Z.ltb_spec 0 0); try lia.
    replace (0 `min` Z.of_nat (length tok))%Z with 0%Z by lia.
    change (Z.to_nat 0) with 0%nat. rewrite drop_0, Z.sub_0_r.
    destruct (decide (k ≤ Z.of_nat (length tok))%Z).
    - f_equal. lia.
    - rewrite !take_ge by lia. done. }
  split.
  - intros Hle. exists (slice_to tok pl), (slice tok pl rl).
    split; [done|]. split; [done|]. split; [apply Htake; lia|].
    rewrite slice_to_slice by done. apply Htake. lia.
  - intros Hle. by rewrite slice_empty.
Qed.

Lemma X13_table_segments_witness :
  ∃ t p r, table_of example_ids_to_text example_rollout_batch = Ok t ∧
    table_prompt t = example_ids_to_text p ∧
    table_response t = example_ids_to_text r ∧
    p = take 2 [0; 1; 2; 3; 4]%Z ∧ p ++ r = take 5 [0; 1; 2; 3; 4]%Z.
Proof.
  destruct (proj1 (X13_table_segments example_ids_to_text example_rollout_batch
    _ 2 5 [0; 1; 2; 3; 4]%Z [] [] [] eq_refl eq_refl eq_refl eq_refl))
    as (p & r & H); [lia|].
  eexists. exists p, r. split; [reflexivity|exact H].
Defined.

(** ** The calls to the collaborators: further properties *)

Section calls_more.
Variables (env : Collaborators) (c : DictConfig).

Lemma score_val_world w :
  (score_val env c w).2
  = {| trace := trace w ++ val_events (futures_issued w);
       infer_calls := S (infer_calls w);
       futures_issued := S (futures_issued w) |}.
Proof.
  unfold score_val, mbind, IO_bind, model_infer, infer_rm_critic, future_result,
    emit. simpl.
  by rewrite <- !app_assoc.
Qed.

Lemma run_inference_val_world n w :
  (run_inference_val env c n w).2
  = {| trace := trace w ++ flat_map val_events (seq (futures_issued w) n);
       infer_calls := infer_calls w + n;
       futures_issued := futures_issued w + n |}.
Proof.
  revert w. induction n as [|n IH]; intros w.
  - simpl. rewrite app_nil_r, !Nat.add_0_r. by destruct w.
  - simpl. unfold mbind, IO_bind at 1.
    destruct (score_val env c w) as [s w1] eqn:E1.
    unfold IO_bind at 1.
    destruct (run_inference_val env c n w1) as [rest w2] eqn:E2.
    simpl.
    assert (w2 = (run_inference_val env c n w1).2) as -> by by rewrite E2.
    assert (w1 = (score_val env c w).2) as -> by by rewrite E1.
    rewrite IH, score_val_world. simpl.
    rewrite <- !app_assoc. simpl.
    f_equal; lia.
Qed.

Lemma run_inference_val_result n w :
  (run_inference_val env c n w).1
  = (λ k, (score_val env c
             {| trace := []; infer_calls := infer_calls w + k;
                futures_issued := 0 |}).1) <$> seq 0 n.
Proof.
  revert w. induction n as [|n IH]; intros w; [done|].
  simpl. unfold mbind, IO_bind at 1.
  destruct (score_val env c w) as [s w1] eqn:E1.
  unfold IO_bind at 1.
  destruct (run_inference_val env c n w1) as [rest w2] eqn:E2.
  simpl.
  assert (rest = (run_inference_val env c n w1).1) as -> by by rewrite E2.
  assert (w1 = (score_val env c w).2) as -> by by rewrite E1.
  assert (s = (score_val env c w).1) as -> by by rewrite E1.
  rewrite IH, score_val_world. simpl. rewrite Nat.add_0_r.
  f_equal. rewrite <- fmap_S_seq, <- list_fmap_compose.
  apply list_fmap_ext. intros i k _. simpl.
  by replace (S (infer_calls w + k)) with (infer_calls w + S k)%nat by lia.
Qed.

Lemma generation_rounds_result n w :
  (generation_rounds env c n w).1
  = (λ k, (score_train env c (infer_answer env (infer_calls w + k)) world0).1)
      <$> seq 0 n.
Proof.
  revert w. induction n as [|n IH]; intros w; [done|].
  simpl. unfold mbind, IO_bind at 1.
  destruct (model_infer env w) as [ro w1] eqn:E1.
  unfold IO_bind at 1.
  destruct (score_train env c ro w1) as [s w2] eqn:E2.
  unfold IO_bind at 1.
  destruct (generation_rounds env c n w2) as [rest w3] eqn:E3.
  simpl.
  assert (rest = (generation_rounds env c n w2).1) as -> by by rewrite E3.
  assert (w2 = (score_train env c ro w1).2) as -> by by rewrite E2.
  assert (s = (score_train env c ro w1).1) as -> by by rewrite E2.
  unfold model_infer in E1. injection E1 as <- <-.
  rewrite IH, score_train_world. simpl. rewrite Nat.add_0_r.
  f_equal. rewrite <- fmap_S_seq, <- list_fmap_compose.
  apply list_fmap_ext. intros i k _. simpl.
  by replace (S (infer_calls w + k)) with (infer_calls w + S k)%nat by lia.
Qed.

Lemma score_train_same_call (x y : nat) :
  x = y →
  (score_train env c (infer_answer env x) world0).1
  = (score_train env c (infer_answer env y) world0).1.
Proof. by intros ->. Qed.

Lemma run_inference_train_result gi mb w :
  (run_inference_train env c gi mb w).1
  = (λ a, (λ b, (score_train env c
                   (infer_answer env (infer_calls w + a * gi + b)) world0).1)
            <$> seq 0 gi) <$> seq 0 mb.
Proof.
  revert w. induction mb as [|mb IH]; intros w; [done|].
  cbn [run_inference_train]. unfold mbind, IO_bind at 1.
  destruct (generation_rounds env c gi w) as [cur w1] eqn:E1.
  unfold IO_bind at 1.
  destruct (run_inference_train env c gi mb w1) as [rest w2] eqn:E2.
  unfold mret, IO_ret. cbn [fst].
  assert (rest = (run_inference_train env c gi mb w1).1) as -> by by rewrite E2.
  assert (w1 = (generation_rounds env c gi w).2) as -> by by rewrite E1.
  assert (cur = (generation_rounds env c gi w).1) as -> by by rewrite E1.
  rewrite IH, generation_rounds_world, generation_rounds_result.
  change (seq 0 (S mb)) with (0%nat :: seq 1 mb).
  rewrite <- fmap_S_seq, fmap_cons. f_equal.
  - apply list_fmap_ext. intros i k _. apply score_train_same_call. lia.
  - rewrite <- list_fmap_compose.
    apply list_fmap_ext. intros i a _. unfold compose.
    apply list_fmap_ext. intros j b _. apply score_train_same_call.
    cbn [infer_calls]. lia.
Qed.

Lemma val_events_no_logprobs k n :
  EvInitLogprobs ∉ flat_map val_events (seq k n).
Proof.
  revert k. induction n as [|n IH]; intros k; simpl.
  - apply not_elem_of_nil.
  - rewrite !not_elem_of_cons. repeat split; try done.
Qed.

Lemma outstanding_after_val k n :
  outstanding_after [] (flat_map val_events (seq k n)) = [].
Proof.
  revert k. induction n as [|n IH]; intros k; [done|].
  simpl. rewrite filter_ne_singleton. apply IH.
Qed.

Lemma max_outstanding_val k n :
  (max_outstanding [] (flat_map val_events (seq k n)) ≤ 1)%nat.
Proof.
  revert k. induction n as [|n IH]; intros k; [simpl; lia|].
  simpl. rewrite filter_ne_singleton. simpl.
  specialize (IH (S k)). lia.
Qed.

End calls_more.

(** X14: the validation path makes, per microbatch, one inference and
    one reward-critic request that is joined at once, in this order; it
    never requests reference log-probabilities; it returns one record per
    microbatch, each scored from a fresh inference with the validation
    blend. *)
Theorem X14_validation_calls (env : Collaborators) (c : DictConfig)
    (microbatches : nat) :
  let run := run_inference_val env c microbatches world0 in
  trace (run.2) = flat_map val_events (seq 0 microbatches) ∧
  (EvInitLogprobs ∉ trace (run.2)) ∧
  (max_outstanding [] (trace (run.2)) ≤ 1)%nat ∧
  outstanding_after [] (trace (run.2)) = [] ∧
  infer_calls (run.2) = microbatches ∧
  length (run.1) = microbatches ∧
  (∀ k s, (run.1) !! k = Some s →
     let ro := infer_answer env k in
     sc_rewards s = blend_val c (critic_answer env ro) (ifeval_answer env ro).1
                              (ifeval_answer env ro).2 ∧
     sc_rm_rewards s = critic_answer env ro ∧
     sc_ifeval_rewards s = (ifeval_answer env ro).1).
Proof.
  cbv zeta. rewrite run_inference_val_world, run_inference_val_result. simpl.
  split; [done|]. split; [apply val_events_no_logprobs|].
  split; [apply max_outstanding_val|]. split; [apply outstanding_after_val|].
  split; [done|]. split; [by rewrite length_fmap, length_seq|].
  intros k s Hk. rewrite list_lookup_fmap in Hk.
  destruct (seq 0 microbatches !! k) as [k'|] eqn:Hseq; [|done].
  apply lookup_seq in Hseq as [-> _]. injection Hk as <-. done.
Qed.


Lemma X14_validation_calls_witness :
  ∃ s, (run_inference_val example_collaborators (example_cfg None) 2 world0).1
       !! 1%nat = Some s ∧
       sc_rm_rewards s = critic_answer example_collaborators
                           (infer_answer example_collaborators 1).
Proof.
  destruct (X14_validation_calls example_collaborators (example_cfg None) 2)
    as (_ & _ & _ & _ & _ & _ & H).
  eexists. split; [reflexivity|].
  destruct (H 1%nat _ eq_refl) as (_ & Hrm & _). exact Hrm.
Defined.


(** ** The KL scalar: edge cases *)

Section kl_more.

Lemma tsum_zero (v : list Qc) : Forall (λ x, x = 0) v → tsum v = 0.
Proof.
  induction 1 as [|x v -> _ IH]; [done|]. by rewrite tsum_cons, IH, Qcplus_0_l.
Qed.

Lemma mean_last_zero (v : list Qc) :
  v ≠ [] → Forall (λ x, x = 0) v → mean_last v = Fin 0.
Proof.
  intros Hne Hz. unfold mean_last, true_divide.
  rewrite decide_False by (apply Qc_of_nat_ne_0; by destruct v).
  rewrite tsum_zero by done. f_equal. unfold Qcdiv. apply Qcmult_0_l.
Qed.

End kl_more.

(** X16: edge cases of the per-sample KL scalar.  A row without token
    positions gives [nan]; a row whose positions are all masked out gives
    0 (where a mean over the valid positions alone would be [0/0]); with
    every position valid it is the plain mean of the per-token KL. *)
Theorem X16_kl_scalar_edges (kl mask : list Qc) :
  kl_scalar [] mask = NaN ∧
  (length kl = length mask → kl ≠ [] → Forall (λ m, m = 0) mask →
   kl_scalar kl mask = Fin 0 ∧ masked_mean_spec kl mask = NaN) ∧
  (length kl = length mask → kl ≠ [] → Forall (λ m, m = 1) mask →
   kl_scalar kl mask = Fin (tsum kl / Qc_of_Z (Z.of_nat (length kl)))).
Proof.
  split; [done|]. split.
  - intros Hlen Hne Hmask.
    assert (Hprod : Forall (λ x, x = 0) (tmul kl mask)).
    { clear Hne. revert kl Hlen.
      induction Hmask as [|m mask -> _ IH]; intros [|x kl] Hlen; try done.
      unfold tmul. cbn [zip_with]. constructor; [apply Qcmult_0_r|].
      apply IH. simpl in Hlen. lia. }
    split.
    + apply mean_last_zero; [|done].
      destruct kl, mask; done.
    + unfold masked_mean_spec, true_divide.
      rewrite (tsum_zero mask) by done. rewrite decide_True by done.
      by rewrite tsum_zero, decide_True.
  - intros Hlen Hne Hmask. rewrite kl_scalar_value by done. do 2 f_equal.
    clear Hne. revert kl Hlen.
    induction Hmask as [|m mask -> _ IH]; intros [|x kl] Hlen; try done.
    unfold tmul. cbn [zip_with]. rewrite !tsum_cons, Qcmult_1_r. f_equal.
    apply IH. simpl in Hlen. lia.
Qed.

Lemma X16_kl_scalar_edges_witness :
  kl_scalar [Qc_of_Z 3; Qc_of_Z 5] [0; 0] = Fin 0 ∧
  masked_mean_spec [Qc_of_Z 3; Qc_of_Z 5] [0; 0] = NaN ∧
  kl_scalar [Qc_of_Z 3; Qc_of_Z 5] [1; 1]
  = Fin (tsum [Qc_of_Z 3; Qc_of_Z 5] / Qc_of_Z (Z.of_nat 2)).
Proof.
  destruct (X16_kl_scalar_edges [Qc_of_Z 3; Qc_of_Z 5] [0; 0]) as (_ & H0 & _).
  destruct (X16_kl_scalar_edges [Qc_of_Z 3; Qc_of_Z 5] [1; 1]) as (_ & _ & H1).
  split; [|split].
  - apply H0; [reflexivity|discriminate|repeat constructor].
  - apply H0; [reflexivity|discriminate|repeat constructor].
  - apply H1; [reflexivity|discriminate|repeat constructor].
Defined.

(** X17: when [initial_policy_kl_penalty] is not positive the KL is not
    computed: whatever the log-probabilities, the KL scalar of every
    sample with at least one token position is 0. *)
Theorem X17_kl_disabled (c : DictConfig) (kl mask : list (list Qc)) :
  cfg_initial_policy_kl_penalty c ≤ 0 →
  Forall (λ row, row ≠ []) mask →
  init_policy_kl_scalars c kl mask = (λ _, Fin 0) <$> mask.
Proof.
  intros Hpen Hrows. unfold init_policy_kl_scalars, compute_init_policy_kl.
  rewrite bool_decide_eq_false_2 by (by apply Qcle_not_lt).
  apply list_fmap_ext. intros i row Hi.
  rewrite Forall_lookup in Hrows. specialize (Hrows i row Hi).
  unfold kl_scalar_disabled. apply mean_last_zero.
  - unfold scalet. by destruct row.
  - unfold scalet. apply Forall_fmap, Forall_true. intros x. simpl.
    apply Qcmult_0_l.
Qed.

Lemma X17_kl_disabled_witness :
  init_policy_kl_scalars
    {| cfg_max_epochs := 1; cfg_max_steps := None;
       cfg_initial_policy_kl_penalty := 0; cfg_rm_multiplier := 1;
       cfg_ifeval_multiplier := 1; cfg_baseline := "RLOO" |}
    [[Qc_of_Z 4; Qc_of_Z 2]] [[1; 0]]
  = (λ _, Fin 0) <$> [[1; 0]].
Proof.
  apply X17_kl_disabled.
  - vm_compute. discriminate.
  - repeat constructor; discriminate.
Defined.

(** ** The metrics of [generate_reinforce_data] *)

Section reinforce_metrics.
Variable compute_kl : bool.

Local Abbreviation kl_of :=
  (λ b : RolloutBatch, if compute_kl then tsum (init_policy_kl b) else 0).

Lemma foldl_num_samples (z : Z) (bs : list RolloutBatch) :
  foldl (λ n b, (n + Z.of_nat (length (prompt_lengths b)))%Z) z bs
  = (z + Z.of_nat (length (concat (prompt_lengths <$> bs))))%Z.
Proof.
  revert z. induction bs as [|b bs IH]; intros z.
  - simpl. lia.
  - cbn [foldl]. rewrite IH, fmap_cons. cbn [concat]. rewrite length_app. lia.
Qed.

Lemma foldl_kl_metric (m : gmap string Qc) (bs : list RolloutBatch) :
  bs ≠ [] →
  foldl (λ m b, <["init_policy_kl" :=
                    default 0 (m !! "init_policy_kl") + kl_of b]> m) m bs
  = <["init_policy_kl" :=
        default 0 (m !! "init_policy_kl") + tsum (kl_of <$> bs)]> m.
Proof.
  revert m. induction bs as [|b bs IH]; intros m Hne; [done|].
  cbn [foldl]. destruct bs as [|b' bs].
  - cbn [foldl fmap list_fmap]. by rewrite tsum_cons, Qcplus_0_r.
  - rewrite IH by done. rewrite lookup_insert_eq. cbn [default].
    rewrite insert_insert_eq. f_equal.
    rewrite (fmap_cons _ b), (tsum_cons (kl_of b)). by rewrite Qcplus_assoc.
Qed.

End reinforce_metrics.

(** X18: the per-worker KL metric of [generate_reinforce_data].  With no
    record the metrics are empty and nothing is divided; with records
    that hold no sample the division by the sample count raises
    [ZeroDivisionError]; otherwise the only metric, [init_policy_kl], is
    the sum of the KL scalars of all samples over their number, and 0
    when the KL is not computed. *)
Theorem X18_reinforce_rollout_metrics (compute_kl : bool)
    (rollout_batches : list RolloutBatch) :
  let n := Z.of_nat (length (concat (prompt_lengths <$> rollout_batches))) in
  (rollout_batches = [] →
   reinforce_rollout_metrics compute_kl rollout_batches = Ok ∅) ∧
  (rollout_batches ≠ [] → n = 0%Z →
   reinforce_rollout_metrics compute_kl rollout_batches = Raise ZeroDivisionError) ∧
  (rollout_batches ≠ [] → n ≠ 0%Z →
   reinforce_rollout_metrics compute_kl rollout_batches
   = Ok {["init_policy_kl" :=
            (if compute_kl
             then tsum ((λ b, tsum (init_policy_kl b)) <$> rollout_batches)
             else 0) / Qc_of_Z n]}).
Proof.
  cbv zeta. unfold reinforce_rollout_metrics.
  rewrite foldl_num_samples, Z.add_0_l.
  split; [by intros ->|].
  assert (Hm : rollout_batches ≠ [] →
    foldl (λ m b, <["init_policy_kl" :=
                      default 0 (m !! "init_policy_kl")
                      + (if compute_kl then tsum (init_policy_kl b) else 0)]> m)
          ∅ rollout_batches
    = ({["init_policy_kl" :=
           if compute_kl
           then tsum ((λ b, tsum (init_policy_kl b)) <$> rollout_batches)
           else 0]} : gmap string Qc)).
  { intros Hne. rewrite (foldl_kl_metric compute_kl ∅ _ Hne).
    rewrite lookup_empty. cbn [default]. rewrite Qcplus_0_l.
    destruct compute_kl; [done|].
    rewrite tsum_zero; [done|]. by apply Forall_fmap, Forall_true. }
  split.
  - intros Hne Hn. rewrite (Hm Hne), Hn.
    rewrite decide_False by apply insert_non_empty. by rewrite decide_True.
  - intros Hne Hn. rewrite (Hm Hne).
    rewrite decide_False by apply insert_non_empty.
    rewrite decide_False by done.
    by rewrite map_fmap_singleton.
Qed.

Lemma X18_reinforce_rollout_metrics_witness :
  reinforce_rollout_metrics true [example_rloo_batch] = Raise ZeroDivisionError ∧
  reinforce_rollout_metrics true [example_rollout_batch; example_rollout_batch]
  = Ok {["init_policy_kl" :=
           tsum ((λ b, tsum (init_policy_kl b))
                   <$> [example_rollout_batch; example_rollout_batch])
           / Qc_of_Z 2]}.
Proof.
  split.
  - apply (proj1 (proj2 (X18_reinforce_rollout_metrics true [example_rloo_batch])));
      [discriminate|reflexivity].
  - apply (proj2 (proj2 (X18_reinforce_rollout_metrics true
             [example_rollout_batch; example_rollout_batch])));
      [discriminate|discriminate].
Defined.

(** ** [run_training] *)

Section run_training_lemmas.

Lemma optim_metrics_ext (t t' : Trainer) (b : TrainStep) :
  reinforce_optimization_step t = reinforce_optimization_step t' →
  optim_metrics t b = optim_metrics t' b.
Proof. unfold optim_metrics. by intros ->. Qed.

Lemma foldl_run_training_batch (bs : list TrainStep) (l : Loop)
    (last0 : option (Qc * gmap string Qc)) :
  let r := foldl run_training_batch (l, last0) bs in
  let t := trainer l in
  cfg (trainer r.1) = cfg t ∧
  num_steps_per_epoch (trainer r.1) = num_steps_per_epoch t ∧
  max_steps (trainer r.1) = max_steps t ∧
  consumed_samples (trainer r.1) = consumed_samples t ∧
  step (trainer r.1) = step t ∧
  reinforce_optimization_step (trainer r.1)
  = (reinforce_optimization_step t + Z.of_nat (length bs))%Z ∧
  logged r.1
  = logged l ++ imap (λ k b, LogTrainOptim (step t)
                      (optim_metrics
                         (with_reinforce_optimization_step
                            (reinforce_optimization_step t + Z.of_nat k) t) b)) bs ∧
  r.2 = match last bs with
        | Some b =>
            Some (ts_loss b,
                  optim_metrics
                    (with_reinforce_optimization_step
                       (reinforce_optimization_step t + Z.of_nat (length bs) - 1) t) b)
        | None => last0
        end.
Proof.
  induction bs as [|b bs IH] using rev_ind.
  - cbn [foldl length imap last fst snd]. rewrite app_nil_r, Z.add_0_r.
    repeat split.
  - cbv zeta in *. rewrite foldl_app. cbn [foldl].
    destruct (foldl run_training_batch (l, last0) bs) as [l0 la0].
    cbn [fst snd] in IH.
    destruct IH as (Hc & Hn & Hm & Hs & Hst & Hr & Hl & _).
    unfold run_training_batch.
    cbn [fst snd trainer logged cfg num_steps_per_epoch max_steps consumed_samples
         step reinforce_optimization_step with_reinforce_optimization_step].
    rewrite length_app, last_snoc, imap_app, Hl, Hst, Hr. cbn [length imap].
    rewrite <- app_assoc, Nat.add_0_r.
    repeat split; try done.
    + lia.
    + do 2 f_equal. rewrite (optim_metrics_ext (trainer l0)
        (with_reinforce_optimization_step
           (reinforce_optimization_step (trainer l) + Z.of_nat (length bs))
           (trainer l))); [done|by rewrite Hr].
    + rewrite (optim_metrics_ext (trainer l0)
        (with_reinforce_optimization_step
           (reinforce_optimization_step (trainer l)
            + Z.of_nat (length bs + 1) - 1) (trainer l))); [done|].
      rewrite Hr. simpl. lia.
Qed.

End run_training_lemmas.

(** X19: [run_training] counts one optimizer step per batch and logs
    each batch at the unchanged [step] with the value the counter had
    before the batch as [optim_step]; it changes nothing else of the
    trainer.  It returns the loss and the metrics of the last batch,
    whose [lr], [loss], [optim_step] and [train_step_time] entries
    override those of the model; with no batch at all it raises
    [UnboundLocalError] on its [return] and changes nothing. *)
Theorem X19_run_training (batches : list TrainStep) (l : Loop) :
  let r := run_training batches l in
  let t := trainer l in
  same_setup t (trainer r.2) ∧
  consumed_samples (trainer r.2) = consumed_samples t ∧
  step (trainer r.2) = step t ∧
  reinforce_optimization_step (trainer r.2)
  = (reinforce_optimization_step t + Z.of_nat (length batches))%Z ∧
  logged r.2
  = logged l ++ imap (λ k b, LogTrainOptim (step t)
                      (optim_metrics
                         (with_reinforce_optimization_step
                            (reinforce_optimization_step t + Z.of_nat k) t) b))
                   batches ∧
  (batches = [] → r = (Raises UnboundLocalError, l)) ∧
  (∀ b, last batches = Some b →
     ∃ metrics, r.1 = Returns (ts_loss b, metrics) ∧
       metrics !! "optim_step"
       = Some (Qc_of_Z (reinforce_optimization_step t
                        + Z.of_nat (length batches) - 1)) ∧
       metrics !! "loss" = Some (ts_loss b) ∧
       metrics !! "lr" = Some (ts_lr b) ∧
       metrics !! "train_step_time" = Some (ts_time b)).
Proof.
  cbv zeta.
  assert (Hnil : batches = [] → run_training batches l
                                 = (Raises UnboundLocalError, l)) by (by intros ->).
  revert Hnil. unfold run_training, same_setup. intros Hnil.
  pose proof (foldl_run_training_batch batches l None) as H. cbv zeta in H.
  destruct (foldl run_training_batch (l, None) batches) as [l' la].
  cbn [fst snd] in H.
  destruct H as (Hc & Hn & Hm & Hs & Hst & Hr & Hl & Hla).
  assert (Hl' : (match la with
                 | Some r => (Returns r, l')
                 | None => (Raises UnboundLocalError, l')
                 end).2 = l') by (by destruct la).
  rewrite Hl'. repeat split; try done.
  - intros b Hb. rewrite Hb in Hla. subst la. eexists. split; [done|].
    unfold optim_metrics. cbn [reinforce_optimization_step
      with_reinforce_optimization_step]. by simplify_map_eq.
Qed.

Lemma X19_run_training_witness :
  (run_training [] {| trainer := example_trainer; logged := [] |})
  = (Raises UnboundLocalError, {| trainer := example_trainer; logged := [] |}) ∧
  ∃ metrics,
    (run_training
       [{| ts_loss := 1; ts_metrics := {["loss" := 0]}; ts_grad_norm := None;
           ts_lr := 1; ts_time := 1 |}]
       {| trainer := example_trainer; logged := [] |}).1
    = Returns (1, metrics) ∧
    metrics !! "loss" = Some 1.
Proof.
  split.
  - apply (X19_run_training [] {| trainer := example_trainer; logged := [] |}).
    reflexivity.
  - destruct (X19_run_training
      [{| ts_loss := 1; ts_metrics := {["loss" := 0]}; ts_grad_norm := None;
          ts_lr := 1; ts_time := 1 |}]
      {| trainer := example_trainer; logged := [] |})
      as (_ & _ & _ & _ & _ & _ & H).
    destruct (H _ eq_refl) as (metrics & Hr & _ & Hloss & _).
    exists metrics. split; [exact Hr|exact Hloss].
Defined.

(** ** [fit] *)

Section fit_lemmas.
Variable env : FitEnv.

Lemma run_training_frame (bs : list TrainStep) (l : Loop) :
  same_setup (trainer l) (trainer (run_training bs l).2) ∧
  consumed_samples (trainer (run_training bs l).2) = consumed_samples (trainer l) ∧
  step (trainer (run_training bs l).2) = step (trainer l) ∧
  reinforce_optimization_step (trainer (run_training bs l).2)
  = (reinforce_optimization_step (trainer l) + Z.of_nat (length bs))%Z.
Proof.
  unfold run_training, same_setup.
  pose proof (foldl_run_training_batch bs l None) as H. cbv zeta in H.
  destruct (foldl run_training_batch (l, None) bs) as [l' la].
  cbn [fst snd] in H. destruct H as (Hc & Hn & Hm & Hs & Hst & Hr & _).
  by destruct la.
Qed.

(** One iteration of the inner loop: the setup is kept, [break] leaves
    the state as it was, a completed iteration adds one to [step], and an
    exception leaves [step] as it was or one further. *)
Ltac red_fields :=
  cbn [fst snd trainer logged cfg num_steps_per_epoch max_steps step
       consumed_samples reinforce_optimization_step with_step
       with_consumed_samples with_reinforce_optimization_step with_max_steps] in *.

Lemma fit_iteration_spec (l : Loop) :
  same_setup (trainer l) (trainer (fit_iteration env l).2) ∧
  match (fit_iteration env l).1 with
  | Returns Break => (fit_iteration env l).2 = l
  | Returns _ => step (trainer (fit_iteration env l).2) = (step (trainer l) + 1)%Z
  | Raises _ =>
      step (trainer (fit_iteration env l).2) = step (trainer l) ∨
      step (trainer (fit_iteration env l).2) = (step (trainer l) + 1)%Z
  end.
Proof.
  unfold fit_iteration, generate_rollouts, save, mbind, L_bind, get_trainer,
    update_trainer, log, of_option, of_result, raise, mret, L_ret, same_setup.
  red_fields.
  destruct (fe_has_microbatches env (step (trainer l))); cbn [negb];
    [|by destruct l].
  destruct (fe_rollout_table env (step (trainer l))) as [row|];
    red_fields; [|auto].
  unfold epoch, floordiv.
  red_fields.
  destruct (decide (num_steps_per_epoch (trainer l) = 0%Z));
    red_fields; [auto|].
  match goal with
  | |- context [run_training ?bs ?l1] =>
      pose proof (run_training_frame bs l1) as (Hsetup & _ & Hstep & _);
      destruct (run_training bs l1) as [[r|e] l2]
  end;
    red_fields;
    destruct Hsetup as (Hc & Hn & Hm); [|auto].
  red_fields.
  destruct (fe_check_progress env (step (trainer l2) + 1) (max_steps (trainer l2))
              (fe_run_time_exceeded env (step (trainer l2) + 1)))
    as [[run_val save_model] is_train_end].
  destruct run_val.
  - destruct (fe_val_table env (step (trainer l2) + 1)) as [vrow|];
      red_fields;
      [|split; [done|right; simpl; lia]].
    destruct save_model.
    + unfold state_dict, epoch, floordiv.
      red_fields.
      rewrite Hn. rewrite decide_False by done.
      cbn [bind]; red_fields.
      split; [done|].
      destruct (fe_run_time_exceeded env (step (trainer l2) + 1)); simpl; lia.
    + red_fields.
      split; [done|].
      destruct (fe_run_time_exceeded env (step (trainer l2) + 1)); simpl; lia.
  - red_fields.
    destruct save_model.
    + unfold state_dict, epoch, floordiv.
      red_fields.
      rewrite Hn. rewrite decide_False by done.
      cbn [bind]; red_fields.
      split; [done|].
      destruct (fe_run_time_exceeded env (step (trainer l2) + 1)); simpl; lia.
    + red_fields.
      split; [done|].
      destruct (fe_run_time_exceeded env (step (trainer l2) + 1)); simpl; lia.
Qed.

Lemma same_setup_trans (t1 t2 t3 : Trainer) :
  same_setup t1 t2 → same_setup t2 t3 → same_setup t1 t3.
Proof. unfold same_setup. intros (-> & -> & ->) (-> & -> & ->). done. Qed.

Lemma same_setup_refl (t : Trainer) : same_setup t t.
Proof. by unfold same_setup. Qed.

Lemma fit_steps_unfold (n : nat) (l : Loop) :
  fit_steps env (S n) l
  = match fit_iteration env l with
    | (Returns Continue, l1) => fit_steps env n l1
    | (Returns Break, l1) => (Returns Break, l1)
    | (Returns Return, l1) => (Returns Return, l1)
    | (Raises e, l1) => (Raises e, l1)
    end.
Proof.
  cbn [fit_steps]. unfold mbind, L_bind at 1.
  destruct (fit_iteration env l) as [[[]|e] l1]; done.
Qed.

(** The inner loop of at most [n] iterations: [step] advances by at
    most [n], and by exactly [n] when the loop runs to its end. *)
Lemma fit_steps_spec (n : nat) (l : Loop) :
  same_setup (trainer l) (trainer (fit_steps env n l).2) ∧
  (step (trainer l) ≤ step (trainer (fit_steps env n l).2)
   ≤ step (trainer l) + Z.of_nat n)%Z ∧
  ((fit_steps env n l).1 = Returns Continue →
   step (trainer (fit_steps env n l).2) = (step (trainer l) + Z.of_nat n)%Z).
Proof.
  revert l. induction n as [|n IH]; intros l.
  - cbn. split; [apply same_setup_refl|]. split; lia.
  - rewrite fit_steps_unfold.
    pose proof (fit_iteration_spec l) as [Hsetup Hstep].
    destruct (fit_iteration env l) as [[f|e] l1]; cbn [fst snd] in *.
    + destruct f.
      * destruct (IH l1) as (Hs1 & Hb1 & Hc1).
        split; [by eapply same_setup_trans|]. split; [lia|].
        intros Hc. rewrite (Hc1 Hc). lia.
      * cbn [fst snd]. subst l1. split; [apply same_setup_refl|].
        split; [lia|done].
      * cbn [fst snd]. split; [done|]. split; [lia|done].
    + cbn [fst snd]. split; [done|]. split; [lia|done].
Qed.

Lemma fit_epochs_unfold (m : nat) (l : Loop) :
  fit_epochs env (S m) l
  = let t := trainer l in
    if decide (num_steps_per_epoch t = 0%Z)
    then (Raises (PyExn ZeroDivisionError), l)
    else
      let n := Z.min (max_steps t - step t)
                     (num_steps_per_epoch t - step t `mod` num_steps_per_epoch t) in
      if (n <=? 0)%Z then (Returns false, l)
      else match fit_steps env (Z.to_nat n) l with
           | (Returns Return, l1) => (Returns false, l1)
           | (Returns _, l1) => fit_epochs env m l1
           | (Raises e, l1) => (Raises e, l1)
           end.
Proof.
  cbn [fit_epochs]. unfold mbind, L_bind at 1, get_trainer. cbv zeta.
  destruct (decide (num_steps_per_epoch (trainer l) = 0%Z)); [done|].
  unfold L_bind at 1, of_result, mret, L_ret.
  destruct (_ <=? 0)%Z; [done|].
  unfold L_bind.
  destruct (fit_steps env _ l) as [[[]|e] l1]; done.
Qed.

(** The loop over the epochs never takes [step] beyond [max_steps]. *)
Lemma fit_epochs_spec (m : nat) (l : Loop) :
  same_setup (trainer l) (trainer (fit_epochs env m l).2) ∧
  (step (trainer l) ≤ step (trainer (fit_epochs env m l).2)
   ≤ Z.max (step (trainer l)) (max_steps (trainer l)))%Z.
Proof.
  revert l. induction m as [|m IH]; intros l.
  - cbn. split; [apply same_setup_refl|lia].
  - rewrite fit_epochs_unfold. cbv zeta.
    destruct (decide (num_steps_per_epoch (trainer l) = 0%Z));
      [cbn; split; [apply same_setup_refl|lia]|].
    destruct (Z.leb_spec
      (Z.min (max_steps (trainer l) - step (trainer l))
         (num_steps_per_epoch (trainer l)
          - step (trainer l) `mod` num_steps_per_epoch (trainer l))) 0) as [|Hpos];
      [cbn; split; [apply same_setup_refl|lia]|].
    pose proof (fit_steps_spec
      (Z.to_nat (Z.min (max_steps (trainer l) - step (trainer l))
         (num_steps_per_epoch (trainer l)
          - step (trainer l) `mod` num_steps_per_epoch (trainer l)))) l)
      as (Hsetup & Hbound & _).
    destruct (fit_steps env _ l) as [[f|e] l1]; cbn [fst snd] in *.
    + assert (Hdone : same_setup (trainer l) (trainer l1) ∧
                (step (trainer l) ≤ step (trainer l1)
                 ≤ Z.max (step (trainer l)) (max_steps (trainer l)))%Z)
        by (split; [done|lia]).
      destruct f; [| |exact Hdone].
      all: destruct (IH l1) as (Hs1 & Hb1);
        destruct Hsetup as (Hc & Hn & Hm);
        (split; [by eapply same_setup_trans|]); rewrite Hm in Hb1; lia.
    + split; [done|lia].
Qed.

Lemma run_training_outcome (bs : list TrainStep) (l : Loop) :
  match bs with
  | [] => (run_training bs l).1 = Raises UnboundLocalError
  | _ :: _ => ∃ r, (run_training bs l).1 = Returns r
  end.
Proof.
  destruct bs as [|b bs]; [done|].
  unfold run_training.
  pose proof (foldl_run_training_batch (b :: bs) l None) as H. cbv zeta in H.
  destruct (foldl run_training_batch (l, None) (b :: bs)) as [l' la].
  cbn [fst snd] in H. destruct H as (_ & _ & _ & _ & _ & _ & _ & Hla).
  destruct (last (b :: bs)) as [b'|] eqn:Hlast.
  - subst la. eauto.
  - by apply last_None in Hlast.
Qed.

(** How one iteration of the inner loop ends, case by case. *)
Lemma fit_iteration_outcome (l : Loop) :
  let t := trainer l in
  (fit_iteration env l).1
  = if negb (fe_has_microbatches env (step t)) then Returns Break
    else match fe_rollout_table env (step t) with
         | None => Raises (PyExn KeyError)
         | Some _ =>
             if decide (num_steps_per_epoch t = 0%Z)
             then Raises (PyExn ZeroDivisionError)
             else match fe_train_steps env (step t) with
                  | [] => Raises UnboundLocalError
                  | _ :: _ =>
                      let s := (step t + 1)%Z in
                      let p := fe_check_progress env s (max_steps t)
                                 (fe_run_time_exceeded env s) in
                      if p.1.1 && bool_decide (fe_val_table env s = None)
                      then Raises (PyExn KeyError)
                      else Returns (if fe_run_time_exceeded env s
                                    then Return else Continue)
                  end
         end.
Proof.
  cbv zeta.
  unfold fit_iteration, generate_rollouts, save, mbind, L_bind, get_trainer,
    update_trainer, log, of_option, of_result, raise, mret, L_ret.
  red_fields.
  destruct (fe_has_microbatches env (step (trainer l))); cbn [negb]; [|done].
  destruct (fe_rollout_table env (step (trainer l))) as [row|];
    red_fields; [|done].
  unfold epoch, floordiv. red_fields.
  destruct (decide (num_steps_per_epoch (trainer l) = 0%Z));
    red_fields; [done|].
  match goal with
  | |- context [run_training ?bs ?l1] =>
      pose proof (run_training_frame bs l1) as (Hsetup & _ & Hstep & _);
      pose proof (run_training_outcome bs l1) as Hout;
      destruct (run_training bs l1) as [[r|e] l2]
  end;
    red_fields; destruct Hsetup as (Hc & Hn & Hm);
    destruct (fe_train_steps env (step (trainer l))); cbn [fst] in Hout;
    try done; try (by destruct Hout); try (by injection Hout as ->).
  red_fields. rewrite Hstep, Hm.
  destruct (fe_check_progress env (step (trainer l) + 1) (max_steps (trainer l))
              (fe_run_time_exceeded env (step (trainer l) + 1)))
    as [[run_val save_model] is_train_end].
  cbn [fst snd].
  destruct run_val; cbn [andb].
  - destruct (fe_val_table env (step (trainer l) + 1)) as [vrow|];
      red_fields; [|by rewrite bool_decide_eq_true_2].
    rewrite bool_decide_eq_false_2 by done.
    destruct save_model; [|done].
    unfold state_dict, epoch, floordiv. red_fields.
    rewrite Hn. rewrite decide_False by done. done.
  - destruct save_model; [|done].
    unfold state_dict, epoch, floordiv. red_fields.
    rewrite Hn. rewrite decide_False by done. done.
Qed.

Lemma fit_iteration_good (l : Loop) :
  no_fault env → uninterrupted env → num_steps_per_epoch (trainer l) ≠ 0%Z →
  (fit_iteration env l).1 = Returns Continue.
Proof.
  intros (Htab & Htrain & Hval) (Hhas & Htime) Hspe.
  rewrite fit_iteration_outcome. cbv zeta.
  rewrite Hhas, Htime. cbn [negb].
  destruct (fe_rollout_table env (step (trainer l))) eqn:E1; [|by apply Htab in E1].
  rewrite decide_False by done.
  destruct (fe_train_steps env (step (trainer l))) eqn:E2; [by apply Htrain in E2|].
  rewrite (bool_decide_eq_false_2 _ (Hval _)). by rewrite andb_false_r.
Qed.

Lemma fit_steps_good (n : nat) (l : Loop) :
  no_fault env → uninterrupted env → num_steps_per_epoch (trainer l) ≠ 0%Z →
  (fit_steps env n l).1 = Returns Continue.
Proof.
  intros Hnf Hun. revert l. induction n as [|n IH]; intros l Hspe; [done|].
  rewrite fit_steps_unfold.
  pose proof (fit_iteration_good l Hnf Hun Hspe) as Hit.
  pose proof (fit_iteration_spec l) as [(_ & Hn & _) _].
  destruct (fit_iteration env l) as [[f|e] l1]; cbn [fst snd] in *; [|done].
  injection Hit as ->. apply IH. by rewrite Hn.
Qed.

Lemma fit_epochs_good (m : nat) (l : Loop) :
  no_fault env → uninterrupted env →
  (0 < num_steps_per_epoch (trainer l))%Z →
  (step (trainer l) = max_steps (trainer l) ∨
   (step (trainer l) < max_steps (trainer l) ∧
    max_steps (trainer l)
    ≤ step (trainer l) - step (trainer l) `mod` num_steps_per_epoch (trainer l)
      + Z.of_nat m * num_steps_per_epoch (trainer l)))%Z →
  (∃ b, (fit_epochs env m l).1 = Returns b) ∧
  step (trainer (fit_epochs env m l).2) = max_steps (trainer l).
Proof.
  intros Hnf Hun. revert l. induction m as [|m IH]; intros l Hspe Hpos.
  - cbn. split; [eauto|].
    pose proof (Z.mod_pos_bound (step (trainer l)) _ Hspe). lia.
  - rewrite fit_epochs_unfold. cbv zeta.
    rewrite decide_False by lia.
    pose proof (Z.mod_pos_bound (step (trainer l)) _ Hspe) as Hmod.
    set (r := (step (trainer l) `mod` num_steps_per_epoch (trainer l))%Z) in *.
    set (n := Z.min (max_steps (trainer l) - step (trainer l))
                    (num_steps_per_epoch (trainer l) - r)).
    destruct (Z.leb_spec n 0) as [Hle|Hgt].
    + cbn. split; [eauto|]. lia.
    + pose proof (fit_steps_spec (Z.to_nat n) l) as (Hsetup & _ & Hstep).
      pose proof (fit_steps_good (Z.to_nat n) l Hnf Hun ltac:(lia)) as Hgood.
      destruct (fit_steps env (Z.to_nat n) l) as [[f|e] l1];
        cbn [fst snd] in *; [|done].
      injection Hgood as ->. specialize (Hstep eq_refl).
      destruct Hsetup as (Hc & Hn & Hm).
      destruct (IH l1) as [Hret Hfinal].
      * by rewrite Hn.
      * rewrite Hm, Hn, Hstep, Z2Nat.id by lia.
        destruct (decide (n = max_steps (trainer l) - step (trainer l))%Z)
          as [->|Hne]; [left; lia|right].
        assert (Hn' : n = (num_steps_per_epoch (trainer l) - r)%Z) by lia.
        split; [lia|].
        assert (Hmul : ((step (trainer l) + n) `mod` num_steps_per_epoch (trainer l)
                        = 0)%Z).
        { rewrite Hn'.
          pose proof (Z.div_mod (step (trainer l)) (num_steps_per_epoch (trainer l))
                        ltac:(lia)) as Hdm.
          fold r in Hdm.
          replace (step (trainer l) + (num_steps_per_epoch (trainer l) - r))%Z
            with ((step (trainer l) / num_steps_per_epoch (trainer l) + 1)
                  * num_steps_per_epoch (trainer l))%Z by lia.
          apply Z.mod_mul. lia. }
        rewrite Hmul. lia.
      * split; [done|]. by rewrite Hfinal, Hm.
Qed.

Lemma fit_iteration_not_ValueError (l : Loop) :
  (fit_iteration env l).1 ≠ Raises ValueError.
Proof.
  rewrite fit_iteration_outcome. cbv zeta.
  repeat case_match; discriminate.
Qed.

Lemma fit_steps_not_ValueError (n : nat) (l : Loop) :
  (fit_steps env n l).1 ≠ Raises ValueError.
Proof.
  revert l. induction n as [|n IH]; intros l; [done|].
  rewrite fit_steps_unfold.
  pose proof (fit_iteration_not_ValueError l) as Hit.
  destruct (fit_iteration env l) as [[[]|e] l1]; cbn [fst] in *; try done.
Qed.

Lemma fit_epochs_not_ValueError (m : nat) (l : Loop) :
  (fit_epochs env m l).1 ≠ Raises ValueError.
Proof.
  revert l. induction m as [|m IH]; intros l; [done|].
  rewrite fit_epochs_unfold. cbv zeta.
  case_decide; [done|]. case_match; [done|].
  pose proof (fit_steps_not_ValueError
    (Z.to_nat (Z.min (max_steps (trainer l) - step (trainer l))
       (num_steps_per_epoch (trainer l)
        - step (trainer l) `mod` num_steps_per_epoch (trainer l)))) l) as Hst.
  destruct (fit_steps env _ l) as [[[]|e] l1]; cbn [fst] in *.
  - apply IH.
  - apply IH.
  - done.
  - intros [= ->]. by apply Hst.
Qed.

Lemma fit_unfold (l : Loop) :
  fit env l
  = let t := trainer l in
    if negb (fe_random_sampler env) && (1 <? cfg_max_epochs (cfg t))%Z
    then (Raises ValueError, l)
    else if decide (num_steps_per_epoch t = 0%Z)
    then (Raises (PyExn ZeroDivisionError), l)
    else
      let epoch_iter :=
        (cfg_max_epochs (cfg t) - step t / num_steps_per_epoch t)%Z in
      if (epoch_iter <=? 0)%Z then (Returns (), l)
      else match fit_epochs env (Z.to_nat epoch_iter) l with
           | (Returns true, l1) =>
               (Returns (), {| trainer := trainer l1;
                               logged := logged l1 ++ [Finalize] |})
           | (Returns false, l1) => (Returns (), l1)
           | (Raises e, l1) => (Raises e, l1)
           end.
Proof.
  unfold fit, mbind, L_bind at 1, get_trainer. cbv zeta.
  destruct (negb (fe_random_sampler env) && _); [done|].
  unfold epoch, floordiv, L_bind at 1.
  destruct (decide (num_steps_per_epoch (trainer l) = 0%Z)); [done|].
  cbn [of_result mret L_ret].
  destruct (_ <=? 0)%Z; [done|].
  unfold L_bind.
  destruct (fit_epochs env _ l) as [[[]|e] l1]; done.
Qed.

Lemma run_training_log (bs : list TrainStep) (l : Loop) :
  ∃ es, logged (run_training bs l).2 = logged l ++ es ∧ Finalize ∉ es.
Proof.
  unfold run_training.
  pose proof (foldl_run_training_batch bs l None) as H. cbv zeta in H.
  destruct (foldl run_training_batch (l, None) bs) as [l' la].
  cbn [fst snd] in H. destruct H as (_ & _ & _ & _ & _ & _ & Hl & _).
  eexists. split; [destruct la; exact Hl|].
  intros Hin. apply elem_of_lookup_imap in Hin as (k & b & Hk & _). done.
Qed.

(** Nothing an iteration logs is the final [finalize]. *)
Ltac log_unchanged :=
  exists []; rewrite app_nil_r; split; [by destruct_and?|apply not_elem_of_nil].

Lemma fit_iteration_log (l : Loop) :
  ∃ es, logged (fit_iteration env l).2 = logged l ++ es ∧ Finalize ∉ es.
Proof.
  unfold fit_iteration, generate_rollouts, save, mbind, L_bind, get_trainer,
    update_trainer, log, of_option, of_result, raise, mret, L_ret.
  red_fields.
  destruct (fe_has_microbatches env (step (trainer l))); cbn [negb];
    [|log_unchanged].
  destruct (fe_rollout_table env (step (trainer l))) as [row|];
    red_fields; [|log_unchanged].
  unfold epoch, floordiv. red_fields.
  destruct (decide (num_steps_per_epoch (trainer l) = 0%Z));
    red_fields; [log_unchanged|].
  match goal with
  | |- context [run_training ?bs ?l1] =>
      pose proof (run_training_frame bs l1) as ((_ & Hn & _) & _);
      pose proof (run_training_log bs l1) as (es & Hes & Hfin);
      destruct (run_training bs l1) as [[r|e] l2]
  end;
    red_fields; rewrite <- app_assoc in Hes; cbn [app] in Hes;
    [|eexists; split; [exact Hes|]; rewrite not_elem_of_cons; by split].
  destruct (fe_check_progress env (step (trainer l2) + 1) (max_steps (trainer l2))
              (fe_run_time_exceeded env (step (trainer l2) + 1)))
    as [[run_val save_model] is_train_end].
  assert (Hsave : ∀ l3 : Loop, trainer l3 = with_step (step (trainer l2) + 1) (trainer l2) →
    ∀ es3, logged l3 = logged l ++ es3 → Finalize ∉ es3 →
    ∃ es', logged
      (let (o, l') :=
         (if save_model
          then λ l4 : Loop,
                 let (o, l') :=
                   match state_dict (trainer l4) with
                   | Ok a => λ l5 : Loop, (Returns a, l5)
                   | Raise e => λ l5 : Loop, (Raises (PyExn e), l5)
                   end l4 in
                 match o with
                 | Returns a =>
                     (Returns (), {| trainer := trainer l';
                                     logged := logged l' ++ [Save a is_train_end] |})
                 | Raises e => (Raises e, l')
                 end
          else λ l4 : Loop, (Returns (), l4)) l3 in
       match o with
       | Returns _ =>
           (Returns (if fe_run_time_exceeded env (step (trainer l2) + 1)
                     then Return else Continue), l')
       | Raises e => (Raises e, l')
       end).2 = logged l ++ es' ∧ Finalize ∉ es').
  { intros l3 Ht es3 Hl3 Hf3. destruct save_model; [|by exists es3].
    destruct (state_dict (trainer l3)) as [sd|e]; red_fields; [|by exists es3].
    exists (es3 ++ [Save sd is_train_end]). rewrite Hl3, app_assoc.
    split; [done|]. rewrite not_elem_of_app, not_elem_of_cons.
    repeat split; try done. apply not_elem_of_nil. }
  assert (Hrow : Finalize ∉ LogTrainRollouts (step (trainer l))
                   (step (trainer l) / num_steps_per_epoch (trainer l) + 1) row :: es).
  { rewrite not_elem_of_cons. by split. }
  destruct run_val.
  - destruct (fe_val_table env (step (trainer l2) + 1)) as [vrow|]; red_fields;
      [|eexists; split; [exact Hes|exact Hrow]].
    eapply Hsave; [done| |].
    + red_fields. rewrite Hes, <- !app_assoc. done.
    + rewrite !not_elem_of_app, !not_elem_of_cons.
      repeat split; try done; apply not_elem_of_nil.
  - red_fields. eapply Hsave; [done| |].
    + red_fields. rewrite Hes, <- !app_assoc. done.
    + rewrite !not_elem_of_app, !not_elem_of_cons.
      repeat split; try done; apply not_elem_of_nil.
Qed.

Lemma fit_steps_log (n : nat) (l : Loop) :
  ∃ es, logged (fit_steps env n l).2 = logged l ++ es ∧ Finalize ∉ es.
Proof.
  revert l. induction n as [|n IH]; intros l.
  - exists []. cbn. rewrite app_nil_r. split; [done|apply not_elem_of_nil].
  - rewrite fit_steps_unfold.
    destruct (fit_iteration_log l) as (es & Hes & Hfin).
    destruct (fit_iteration env l) as [[[]|e] l1]; cbn [fst snd] in *; eauto.
    destruct (IH l1) as (es' & Hes' & Hfin').
    exists (es ++ es'). rewrite Hes', Hes, app_assoc. split; [done|].
    by rewrite not_elem_of_app.
Qed.

Lemma fit_epochs_log (m : nat) (l : Loop) :
  ∃ es, logged (fit_epochs env m l).2 = logged l ++ es ∧ Finalize ∉ es.
Proof.
  revert l. induction m as [|m IH]; intros l.
  - exists []. cbn. rewrite app_nil_r. split; [done|apply not_elem_of_nil].
  - rewrite fit_epochs_unfold. cbv zeta.
    assert (Hnil : ∃ es, logged l = logged l ++ es ∧ Finalize ∉ es).
    { exists []. rewrite app_nil_r. split; [done|apply not_elem_of_nil]. }
    case_decide; [done|]. case_match; [done|].
    destruct (fit_steps_log
      (Z.to_nat (Z.min (max_steps (trainer l) - step (trainer l))
         (num_steps_per_epoch (trainer l)
          - step (trainer l) `mod` num_steps_per_epoch (trainer l)))) l)
      as (es & Hes & Hfin).
    destruct (fit_steps env _ l) as [[[]|e] l1]; cbn [fst snd] in *; eauto.
    all: destruct (IH l1) as (es' & Hes' & Hfin');
      exists (es ++ es'); rewrite Hes', Hes, app_assoc; (split; [done|]);
      by rewrite not_elem_of_app.
Qed.

End fit_lemmas.

(** X20: [fit] raises [ValueError] exactly when more than one epoch is
    configured and the batch sampler of the training data is not the
    random one; it then has done and logged nothing. *)
Theorem X20_fit_value_error (env : FitEnv) (l : Loop) :
  (fe_random_sampler env = false → (1 < cfg_max_epochs (cfg (trainer l)))%Z →
   fit env l = (Raises ValueError, l)) ∧
  ((fit env l).1 = Raises ValueError →
   fe_random_sampler env = false ∧ (1 < cfg_max_epochs (cfg (trainer l)))%Z ∧
   (fit env l).2 = l).
Proof.
  rewrite fit_unfold. cbv zeta. split.
  - intros -> H. by destruct (Z.ltb_spec 1 (cfg_max_epochs (cfg (trainer l))));
      [|lia].
  - destruct (fe_random_sampler env);
      destruct (Z.ltb_spec 1 (cfg_max_epochs (cfg (trainer l)))); cbn [negb andb];
      try done.
    all: case_decide; [done|]; case_match; [done|].
    all: pose proof (fit_epochs_not_ValueError env
           (Z.to_nat (cfg_max_epochs (cfg (trainer l))
                      - step (trainer l) / num_steps_per_epoch (trainer l))) l) as Hne.
    all: destruct (fit_epochs env _ l) as [[[]|e] l1]; cbn [fst] in *; try done.
    all: intros [= ->]; by destruct Hne.
Qed.

Lemma X20_fit_value_error_witness :
  fit {| fe_random_sampler := false; fe_has_microbatches := λ _, true;
         fe_rollout_size := λ _, 128%Z; fe_dp_world_size := 1;
         fe_rollout_table := λ _, None; fe_train_steps := λ _, [];
         fe_run_time_exceeded := λ _, false;
         fe_check_progress := λ _ _ _, (false, false, false);
         fe_val_table := λ _, None |}
      {| trainer := example_trainer; logged := [] |}
  = (Raises ValueError, {| trainer := example_trainer; logged := [] |}).
Proof.
  apply X20_fit_value_error; [reflexivity|]. simpl. lia.
Defined.

(** X21: whatever the collaborators answer and however [fit] ends, it
    keeps the configuration, [num_steps_per_epoch] and [max_steps], never
    decreases [step], and never takes [step] beyond [max_steps]. *)
Theorem X21_fit_step_bound (env : FitEnv) (l : Loop) :
  same_setup (trainer l) (trainer (fit env l).2) ∧
  (step (trainer l) ≤ step (trainer (fit env l).2)
   ≤ Z.max (step (trainer l)) (max_steps (trainer l)))%Z.
Proof.
  rewrite fit_unfold. cbv zeta.
  assert (Hsame : same_setup (trainer l) (trainer l) ∧
                  (step (trainer l) ≤ step (trainer l)
                   ≤ Z.max (step (trainer l)) (max_steps (trainer l)))%Z)
    by (split; [apply same_setup_refl|lia]).
  case_match; [done|]. case_decide; [done|]. case_match; [done|].
  pose proof (fit_epochs_spec env
    (Z.to_nat (cfg_max_epochs (cfg (trainer l))
               - step (trainer l) / num_steps_per_epoch (trainer l))) l) as Hspec.
  by destruct (fit_epochs env _ l) as [[[]|e] l1].
Qed.



(** X23: [fit] on a trainer that has reached [max_steps], such as one
    restored from the checkpoint of a finished run, returns at once: it
    trains nothing, logs nothing and does not finalize the logger. *)
Theorem X23_fit_finished_run (env : FitEnv) (l : Loop) :
  (fe_random_sampler env = true ∨ (cfg_max_epochs (cfg (trainer l)) ≤ 1)%Z) →
  num_steps_per_epoch (trainer l) ≠ 0%Z →
  (max_steps (trainer l) ≤ step (trainer l))%Z →
  fit env l = (Returns (), l).
Proof.
  intros Hguard Hspe Hdone.
  rewrite fit_unfold. cbv zeta.
  assert (negb (fe_random_sampler env)
          && (1 <? cfg_max_epochs (cfg (trainer l)))%Z = false) as ->.
  { destruct Hguard as [->|Hle]; [done|].
    destruct (Z.ltb_spec 1 (cfg_max_epochs (cfg (trainer l)))); [lia|].
    apply andb_false_r. }
  rewrite decide_False by done.
  case_match; [done|].
  destruct (Z.to_nat _) as [|m] eqn:Hm; [lia|].
  rewrite fit_epochs_unfold. cbv zeta.
  rewrite decide_False by done.
  by destruct (Z.leb_spec
    (Z.min (max_steps (trainer l) - step (trainer l))
       (num_steps_per_epoch (trainer l)
        - step (trainer l) `mod` num_steps_per_epoch (trainer l))) 0); [|lia].
Qed.

Lemma X23_fit_finished_run_witness :
  fit {| fe_random_sampler := true; fe_has_microbatches := λ _, true;
         fe_rollout_size := λ _, 128%Z; fe_dp_world_size := 1;
         fe_rollout_table := λ _, None; fe_train_steps := λ _, [];
         fe_run_time_exceeded := λ _, false;
         fe_check_progress := λ _ _ _, (false, false, false);
         fe_val_table := λ _, None |}
      {| trainer := with_step 30 example_trainer; logged := [] |}
  = (Returns (), {| trainer := with_step 30 example_trainer; logged := [] |}).
Proof.
  apply X23_fit_finished_run; [by left|discriminate|simpl; lia].
Defined.





